(** * The citron self-updater (namespace [Updater], class [UpdaterService])

    A shallow embedding of the updater service contained in
    [src/citron/configuration/configure_filesystem.cpp] (second document of
    that file, lines 185-709) together with the properties its design
    document states about it.

    Conventions of the model.
    - [std::string] and [QString] values are byte strings ([string]); the
      case-insensitive Qt operations fold ASCII letters only, which is exact
      for the ASCII patterns the code searches for.
    - [std::filesystem::path] values are lists of components.
    - The service object, the file system, the settings store and the log of
      emitted Qt signals are threaded explicitly through every member
      function.
    - The compile-time platform selection ([#ifdef _WIN32],
      [#elif defined(__linux__)]) is a field of the build description. *)

From stdpp Require Import gmap strings list fin_maps.
From Stdlib Require Import Ascii String.
From Equations Require Import Equations.

Local Open Scope string_scope.
Local Open Scope list_scope.
Local Open Scope nat_scope.

(** ** Strings *)

Module Str.

Definition empty (s : string) : bool :=
  match s with EmptyString => true | String _ _ => false end.

(** [c] is one of [0-9a-fA-F]. *)
Definition is_hex (c : ascii) : bool :=
  let n := nat_of_ascii c in
  ((48 <=? n) && (n <=? 57)) || ((97 <=? n) && (n <=? 102)) || ((65 <=? n) && (n <=? 70)).

Definition lower_ascii (c : ascii) : ascii :=
  let n := nat_of_ascii c in
  if (65 <=? n) && (n <=? 90) then ascii_of_nat (n + 32) else c.

(** [QString::toLower], on ASCII letters. *)
Fixpoint toLower (s : string) : string :=
  match s with
  | EmptyString => EmptyString
  | String c s' => String (lower_ascii c) (toLower s')
  end.

(** [s] begins with [p]. *)
Fixpoint startsWith (p s : string) : bool :=
  match p, s with
  | EmptyString, _ => true
  | String a p', String b s' => if Ascii.eqb a b then startsWith p' s' else false
  | String _ _, EmptyString => false
  end.

(** [s.find(sub) != std::string::npos]. *)
Fixpoint contains (sub s : string) : bool :=
  startsWith sub s ||
  match s with
  | EmptyString => false
  | String _ s' => contains sub s'
  end.

(** [s] ends with [suf]: some tail of [s] is [suf]. *)
Fixpoint endsWith (suf s : string) : bool :=
  String.eqb s suf ||
  match s with
  | EmptyString => false
  | String _ s' => endsWith suf s'
  end.

(** [QString::contains(sub, Qt::CaseInsensitive)]. *)
Definition contains_ci (sub s : string) : bool :=
  contains (toLower sub) (toLower s).

(** [QString::endsWith(suf, Qt::CaseInsensitive)]. *)
Definition endsWith_ci (suf s : string) : bool :=
  endsWith (toLower suf) (toLower s).

(** The longest prefix of [s] made of hexadecimal digits, cut at [n]
    characters: what the greedy quantifier [{7,40}] consumes when started
    at the head of [s] with [n = 40]. *)
Fixpoint hex_run (n : nat) (s : string) : string :=
  match n, s with
  | S n', String c s' => if is_hex c then String c (hex_run n' s') else EmptyString
  | _, _ => EmptyString
  end.

(** Replace every ['/'] by a backslash. *)
Fixpoint backslashes (s : string) : string :=
  match s with
  | EmptyString => EmptyString
  | String c s' =>
      String (if Ascii.eqb c "/"%char then "\"%char else c) (backslashes s')
  end.

(** Split at every ['/'], dropping empty components. *)
Fixpoint split_slash (cur : string) (s : string) : list string :=
  match s with
  | EmptyString => if empty cur then [] else [cur]
  | String c s' =>
      if Ascii.eqb c "/"%char
      then (if empty cur then split_slash EmptyString s'
            else cur :: split_slash EmptyString s')
      else split_slash (cur ++ String c EmptyString) s'
  end.

End Str.

(** [Updater::ExtractCommitHash]: [std::regex_search] with the pattern
    [([0-9a-fA-F]{7,40})] returns the leftmost match, and at that position
    the greedy quantifier takes as many digits as it can, up to 40. *)
Fixpoint ExtractCommitHash (version_string : string) : string :=
  match version_string with
  | EmptyString => EmptyString
  | String _ rest =>
      let m := Str.hex_run 40 version_string in
      if 7 <=? String.length m then m else ExtractCommitHash rest
  end.

(** ** JSON values, as [QJsonValue] exposes them

    The feed is decoded by Qt ([QJsonDocument::fromJson]); the service only
    uses the accessors below, each of which yields a default on a value of
    another kind. An object is an association list read by first match. *)

#[local] Set Warnings "-register-all".

Inductive QJsonValue : Type :=
| JNull
| JBool (b : bool)
| JDouble (n : Z)
| JString (s : string)
| JArray (items : list QJsonValue)
| JObject (members : list (string * QJsonValue))
| JUndefined.

Inductive QJsonDocument : Type :=
| DocNull
| DocArray (items : list QJsonValue)
| DocObject (members : list (string * QJsonValue)).

Definition QJsonObject : Type := list (string * QJsonValue).

Definition isArray (doc : QJsonDocument) : bool :=
  match doc with DocArray _ => true | _ => false end.

Definition array (doc : QJsonDocument) : list QJsonValue :=
  match doc with DocArray items => items | _ => [] end.

Definition toObject (v : QJsonValue) : QJsonObject :=
  match v with JObject members => members | _ => [] end.

Definition toArray (v : QJsonValue) : list QJsonValue :=
  match v with JArray items => items | _ => [] end.

Definition toString (v : QJsonValue) : string :=
  match v with JString s => s | _ => EmptyString end.

Fixpoint value (o : QJsonObject) (key : string) : QJsonValue :=
  match o with
  | [] => JUndefined
  | (k, v) :: o' => if String.eqb k key then v else value o' key
  end.

(** ** Build identity ([common/scm_rev.h]) and target platform *)

Inductive Platform : Type := Windows | Linux | OtherOS.

Record Build : Type := {
  platform : Platform;
  g_citron_variant : string;
  g_citron_version : string;
  g_citron_hash : string
}.

(** ** Data model of the service *)

Record DownloadOption : Type := {
  name : string;
  url : string
}.

Record UpdateInfo : Type := {
  version : string;
  changelog : string;
  release_date : string;
  download_options : list DownloadOption;
  is_newer_version : bool
}.

Inductive UpdateResult : Type :=
| Success
| Failed
| ExtractionError
| PermissionError.

(** Qt signals of [UpdaterService]. *)
Inductive Signal : Type :=
| UpdateCheckCompleted (has_update : bool) (info : UpdateInfo)
| UpdateError (message : string)
| UpdateCompleted (result : UpdateResult) (message : string)
| UpdateDownloadProgress (percent : Z) (received total : Z).

(** ** The file system, as [std::filesystem], [QFile] and [std::ofstream]
    act on it

    A path is the list of its components and the root ([[]]) is a directory
    that always exists. Every operation but [remove_all] either succeeds or
    fails with an error code and no effect. *)

Inductive Node : Type :=
| RegularFile (content : string) (executable : bool)
| Directory.

#[global] Instance Node_eq_dec : EqDecision Node.
Proof. solve_decision. Defined.

Abbreviation path := (list string) (only parsing).
Abbreviation FileSystem := (gmap (list string) Node) (only parsing).

Inductive errc : Type := ENOENT | EEXIST | ENOTDIR | EISDIR.

Inductive result (A : Type) : Type :=
| Ok (a : A)
| Err (e : errc).
Arguments Ok {A} a.
Arguments Err {A} e.

Module FS.

(** [std::error_code::message]. *)
Definition message (e : errc) : string :=
  match e with
  | ENOENT => "No such file or directory"
  | EEXIST => "File exists"
  | ENOTDIR => "Not a directory"
  | EISDIR => "Is a directory"
  end.

Definition exists_ (fs : FileSystem) (p : path) : bool :=
  match p with
  | [] => true
  | _ => match fs !! p with Some _ => true | None => false end
  end.

Definition is_directory (fs : FileSystem) (p : path) : bool :=
  match p with
  | [] => true
  | _ => match fs !! p with Some Directory => true | _ => false end
  end.

Definition is_regular_file (fs : FileSystem) (p : path) : bool :=
  match fs !! p with Some (RegularFile _ _) => true | _ => false end.

Definition parent_path (p : path) : path := removelast p.

(** [create_directories], walking down from the root: a missing component
    is created, a component that is a regular file is an error. *)
Fixpoint mkdirs (pre : path) (rest : list string) (fs : FileSystem)
  : result FileSystem :=
  match rest with
  | [] => Ok fs
  | c :: rest' =>
      let p := pre ++ [c] in
      match fs !! p with
      | Some Directory => mkdirs p rest' fs
      | Some (RegularFile _ _) => Err ENOTDIR
      | None => mkdirs p rest' (<[p := Directory]> fs)
      end
  end.

Definition create_directories (p : path) (fs : FileSystem) : result FileSystem :=
  mkdirs [] p fs.

(** [remove_all(p, ec)] removes what is below [p] and then [p], every
    directory after its content, and gives up at the first entry it
    cannot remove (a file in use, a directory it may not change).
    [stays q] tells whether [q] is an entry the call does not get removed:
    the entry it fails on, or one it has not come to by then. An entry at
    or below [p] is left exactly when it, or an entry below it, stays. The
    result is whether [ec] is set - it is when something is left - and the
    file system after the call. *)
Definition left_behind (stays : path -> bool) (fs : FileSystem) (q : path)
  : Prop :=
  map_Exists (fun (q' : list string) (_ : Node) =>
                q `prefix_of` q' ∧ stays q' = true) fs.

#[global] Instance left_behind_dec stays fs q : Decision (left_behind stays fs q).
Proof. unfold left_behind. apply _. Defined.

Definition remove_all (stays : path -> bool) (p : path) (fs : FileSystem)
  : bool * FileSystem :=
  (bool_decide (left_behind stays fs p),
   filter (fun kv : list string * Node =>
             ¬ p `prefix_of` kv.1 ∨ left_behind stays fs kv.1) fs).

(** [copy_file(from, to, copy_options::overwrite_existing)]. *)
Definition copy_file (from to : path) (fs : FileSystem) : result FileSystem :=
  match fs !! from with
  | Some (RegularFile data x) =>
      if bool_decide (from = to) then Err EEXIST
      else if negb (is_directory fs (parent_path to)) then Err ENOENT
      else match fs !! to with
           | Some Directory => Err EISDIR
           | _ => Ok (<[to := RegularFile data x]> fs)
           end
  | Some Directory => Err EISDIR
  | None => Err ENOENT
  end.

(** Opening [p] for writing ([QIODevice::WriteOnly], [std::ofstream]),
    writing [data] and closing: the file is created or truncated. *)
Definition write_file (p : path) (data : string) (fs : FileSystem)
  : result FileSystem :=
  if negb (is_directory fs (parent_path p)) then Err ENOENT
  else match p, fs !! p with
       | [], _ => Err EISDIR
       | _, Some Directory => Err EISDIR
       | _, Some (RegularFile _ x) => Ok (<[p := RegularFile data x]> fs)
       | _, None => Ok (<[p := RegularFile data false]> fs)
       end.

(** [QFile::setPermissions] with the owner, group and other execute bits. *)
Definition set_executable (p : path) (fs : FileSystem) : FileSystem :=
  match fs !! p with
  | Some (RegularFile data _) => <[p := RegularFile data true]> fs
  | _ => fs
  end.

(** [rename(from, to, ec)] of a regular file over a regular file or a free
    name. *)
Definition rename (from to : path) (fs : FileSystem) : result FileSystem :=
  match fs !! from with
  | Some (RegularFile data x) =>
      if bool_decide (from = to) then Ok fs
      else if negb (is_directory fs (parent_path to)) then Err ENOENT
      else match fs !! to with
           | Some Directory => Err EISDIR
           | _ => Ok (<[to := RegularFile data x]> (delete from fs))
           end
  | Some Directory => Err EISDIR
  | None => Err ENOENT
  end.

(** The regular files a [recursive_directory_iterator] over [dir] visits;
    constructing the iterator fails when [dir] is not a directory. *)
Definition regular_files_under (dir : path) (fs : FileSystem)
  : result (list (list string)) :=
  if is_directory fs dir
  then Ok (map fst (map_to_list
        (filter (fun kv : list string * Node =>
                   dir `prefix_of` kv.1 ∧ kv.2 ≠ Directory) fs)))
  else Err ENOTDIR.

(** [std::filesystem::relative(p, base)] for [p] below [base]. *)
Definition relative (p base : path) : path := drop (List.length base) p.

(** [path::string()]. *)
Fixpoint path_string (p : path) : string :=
  match p with
  | [] => EmptyString
  | [c] => c
  | c :: p' => (c ++ "/" ++ path_string p')%string
  end.

(** [std::filesystem::path(const char* )]: the components of the string,
    taken from the root. *)
Definition of_string (s : string) : path := Str.split_slash EmptyString s.

(** A path string that ends in a separator has, as a [path], an empty
    last component: its [parent_path] is the path without that component,
    and it names a directory or nothing, so that a call that is to read a
    regular file there, or to put one there, fails. *)
Definition ends_in_separator (s : string) : bool := Str.endsWith "/" s.

End FS.

(** ** The network collaborator

    [QNetworkAccessManager::get] hands a request to Qt and returns a reply
    object; the reply later emits [finished()], which runs the slot that
    was connected to it. *)

Record QNetworkRequest : Type := {
  request_url : string;
  user_agent : option string
}.

(** The slot connected to a reply's [finished()] signal: the lambda of
    [CheckForUpdates] with its captured channel, or [OnDownloadFinished]. *)
Inductive Slot : Type :=
| CheckFinished (channel : string)
| DownloadFinished.

Record QNetworkReply : Type := {
  reply_request : QNetworkRequest;
  reply_slot : Slot;
  (** [finished()] has been emitted. *)
  reply_finished : bool;
  (** [error()]: [None] is [QNetworkReply::NoError], otherwise the
      [errorString()]. *)
  reply_error : option string;
  (** What [readAll()] would return. *)
  reply_data : string
}.

(** ** Settings, environment and the state of the service *)

Record Ambient : Type := {
  (** [QSettings]. *)
  qsettings : gmap string string;
  (** [UISettings::values]. *)
  updater_enable_backups : bool;
  updater_backup_path : string;
  (** The process environment read by [qgetenv]. *)
  environ : gmap string string;
  (** The entries a [remove_all] does not get removed. *)
  resists_removal : list string -> bool;
  (** What a read through a pointer into the buffer of a [QByteArray] that
      has been destroyed finds there, as a C string. *)
  freed_buffer : string
}.

(** The members of [UpdaterService] ([update_in_progress] to [backup_path])
    and what the service acts on: the settings, the file system, the
    requests handed to the network manager, the pending
    [QTimer::singleShot] callbacks (each with the [zip_path] it captured)
    and the signals emitted so far. *)
Record State : Type := {
  update_in_progress : bool;
  cancel_requested : bool;
  current_reply : option QNetworkReply;
  current_update_info : UpdateInfo;
  app_directory : list string;
  temp_download_path : list string;
  backup_path : list string;
  ambient : Ambient;
  fs : gmap (list string) Node;
  sent : list QNetworkRequest;
  timers : list (list string);
  emitted : list Signal
}.

Definition set_update_in_progress (v : bool) (s : State) : State :=
  {| update_in_progress := v;
     cancel_requested := cancel_requested s;
     current_reply := current_reply s;
     current_update_info := current_update_info s;
     app_directory := app_directory s;
     temp_download_path := temp_download_path s;
     backup_path := backup_path s;
     ambient := ambient s;
     fs := fs s;
     sent := sent s;
     timers := timers s;
     emitted := emitted s |}.

Definition set_cancel_requested (v : bool) (s : State) : State :=
  {| update_in_progress := update_in_progress s;
     cancel_requested := v;
     current_reply := current_reply s;
     current_update_info := current_update_info s;
     app_directory := app_directory s;
     temp_download_path := temp_download_path s;
     backup_path := backup_path s;
     ambient := ambient s;
     fs := fs s;
     sent := sent s;
     timers := timers s;
     emitted := emitted s |}.

Definition set_current_reply (v : option QNetworkReply) (s : State) : State :=
  {| update_in_progress := update_in_progress s;
     cancel_requested := cancel_requested s;
     current_reply := v;
     current_update_info := current_update_info s;
     app_directory := app_directory s;
     temp_download_path := temp_download_path s;
     backup_path := backup_path s;
     ambient := ambient s;
     fs := fs s;
     sent := sent s;
     timers := timers s;
     emitted := emitted s |}.

Definition set_current_update_info (v : UpdateInfo) (s : State) : State :=
  {| update_in_progress := update_in_progress s;
     cancel_requested := cancel_requested s;
     current_reply := current_reply s;
     current_update_info := v;
     app_directory := app_directory s;
     temp_download_path := temp_download_path s;
     backup_path := backup_path s;
     ambient := ambient s;
     fs := fs s;
     sent := sent s;
     timers := timers s;
     emitted := emitted s |}.

Definition set_fs (v : gmap (list string) Node) (s : State) : State :=
  {| update_in_progress := update_in_progress s;
     cancel_requested := cancel_requested s;
     current_reply := current_reply s;
     current_update_info := current_update_info s;
     app_directory := app_directory s;
     temp_download_path := temp_download_path s;
     backup_path := backup_path s;
     ambient := ambient s;
     fs := v;
     sent := sent s;
     timers := timers s;
     emitted := emitted s |}.

Definition set_sent (v : list QNetworkRequest) (s : State) : State :=
  {| update_in_progress := update_in_progress s;
     cancel_requested := cancel_requested s;
     current_reply := current_reply s;
     current_update_info := current_update_info s;
     app_directory := app_directory s;
     temp_download_path := temp_download_path s;
     backup_path := backup_path s;
     ambient := ambient s;
     fs := fs s;
     sent := v;
     timers := timers s;
     emitted := emitted s |}.

Definition set_timers (v : list (list string)) (s : State) : State :=
  {| update_in_progress := update_in_progress s;
     cancel_requested := cancel_requested s;
     current_reply := current_reply s;
     current_update_info := current_update_info s;
     app_directory := app_directory s;
     temp_download_path := temp_download_path s;
     backup_path := backup_path s;
     ambient := ambient s;
     fs := fs s;
     sent := sent s;
     timers := v;
     emitted := emitted s |}.

Definition set_emitted (v : list Signal) (s : State) : State :=
  {| update_in_progress := update_in_progress s;
     cancel_requested := cancel_requested s;
     current_reply := current_reply s;
     current_update_info := current_update_info s;
     app_directory := app_directory s;
     temp_download_path := temp_download_path s;
     backup_path := backup_path s;
     ambient := ambient s;
     fs := fs s;
     sent := sent s;
     timers := timers s;
     emitted := v |}.

Definition emit (sig : Signal) (s : State) : State :=
  set_emitted (emitted s ++ [sig]) s.

(** ** Code that throws

    A [try] block over the file system: a computation either returns a
    value or throws, and in both cases leaves the file system as it was at
    that point. *)

Definition throwing (A : Type) : Type :=
  gmap (list string) Node -> option A * gmap (list string) Node.

Definition ret {A : Type} (a : A) : throwing A := fun fs => (Some a, fs).

Definition bind {A B : Type} (m : throwing A) (k : A -> throwing B) : throwing B :=
  fun fs =>
    match m fs with
    | (Some a, fs') => k a fs'
    | (None, fs') => (None, fs')
    end.

(** A throwing [std::filesystem] call. *)
Definition attempt (op : gmap (list string) Node -> result (gmap (list string) Node))
  : throwing unit :=
  fun fs =>
    match op fs with
    | Ok fs' => (Some tt, fs')
    | Err _ => (None, fs)
    end.

(** A call taking a [std::error_code&] whose error is not looked at. *)
Definition ignoring_ec (op : gmap (list string) Node -> result (gmap (list string) Node))
  (fs : gmap (list string) Node) : gmap (list string) Node :=
  match op fs with
  | Ok fs' => fs'
  | Err _ => fs
  end.

(** [try { ... } catch (...) { return false; }] *)
Definition catch_all (m : throwing bool) (fs : gmap (list string) Node)
  : bool * gmap (list string) Node :=
  match m fs with
  | (Some r, fs') => (r, fs')
  | (None, fs') => (false, fs')
  end.

Notation "x <- m ;; k" := (bind m (fun x => k))
  (at level 100, m at next level, right associativity).
Notation "m ;;; k" := (bind m (fun _ => k))
  (at level 100, right associativity).

(** ** The text of the helper script *)

Definition dq : string := String (ascii_of_nat 34) EmptyString.
Definition nl : string := String (ascii_of_nat 10) EmptyString.

Definition script_lines (staging_path_str app_path_str exe_path_str : string)
  : list string :=
  [ "@echo off";
    "setlocal enabledelayedexpansion";
    "title Citron Auto-Updater";
    "color 0B";
    "echo =======================================";
    "echo        Citron Emulator Updater       ";
    "echo =======================================";
    EmptyString;
    "echo Waiting for Citron to close...";
    "set /a wait_count=0";
    ":wait_loop";
    "tasklist /FI " ++ dq ++ "IMAGENAME eq citron.exe" ++ dq ++ " | find /I "
      ++ dq ++ "citron.exe" ++ dq ++ " >nul 2>&1";
    "if not errorlevel 1 (";
    "    set /a wait_count+=1";
    "    if !wait_count! gtr 60 (";
    "        echo [WARNING] Citron is taking a long time to close. Attempting to proceed...";
    "        goto wait_done";
    "    )";
    "    timeout /t 1 /nobreak >nul";
    "    goto wait_loop";
    ")";
    ":wait_done";
    "timeout /t 2 /nobreak >nul";
    "echo Preparing permissions...";
    "attrib -R " ++ dq ++ app_path_str ++ "\*.*" ++ dq ++ " /S /D >nul 2>&1";
    "echo Applying update files...";
    "set /a copy_retries=0";
    ":copy_loop";
    "robocopy " ++ dq ++ staging_path_str ++ dq ++ " " ++ dq ++ app_path_str ++ dq
      ++ " /E /IS /IT /R:3 /W:1 /NP /NFL /NDL >nul 2>&1";
    "set /a robocopy_exit=!errorlevel!";
    "if !robocopy_exit! geq 8 (";
    "    set /a copy_retries+=1";
    "    if !copy_retries! lss 3 (";
    "        echo [RETRY] Copy failed (Error !robocopy_exit!). Retrying in 2s...";
    "        timeout /t 2 /nobreak >nul";
    "        goto copy_loop";
    "    ) else (";
    "        echo [ERROR] Update failed to copy files. Error code: !robocopy_exit!";
    "        echo Please ensure no other programs are using Citron files.";
    "        pause";
    "        exit /b 1";
    "    )";
    ")";
    EmptyString;
    "if not exist " ++ dq ++ exe_path_str ++ dq ++ " (";
    "    echo [ERROR] Critical file citron.exe is missing after update!";
    "    pause";
    "    exit /b 1";
    ")";
    EmptyString;
    "echo Update applied successfully!";
    "echo Restarting Citron...";
    "start " ++ dq ++ dq ++ " " ++ dq ++ exe_path_str ++ dq;
    EmptyString;
    "echo Cleaning up temporary files...";
    "set /a cleanup_retries=0";
    ":cleanup_loop";
    "rd /s /q " ++ dq ++ staging_path_str ++ dq ++ " >nul 2>&1";
    "if exist " ++ dq ++ staging_path_str ++ dq ++ " (";
    "    set /a cleanup_retries+=1";
    "    if !cleanup_retries! lss 5 (";
    "        timeout /t 1 /nobreak >nul";
    "        goto cleanup_loop";
    "    )";
    ")";
    EmptyString;
    "del " ++ dq ++ "%~f0" ++ dq ++ " >nul 2>&1";
    "exit /b 0" ]%string.

(** What [CreateUpdateHelperScript] streams into [apply_update.bat]. *)
Definition script_text (staging_path_str app_path_str exe_path_str : string)
  : string :=
  String.concat nl (script_lines staging_path_str app_path_str exe_path_str) ++ nl.

(** ** The service *)

Definition STABLE_UPDATE_URL : string :=
  "https://git.citron-emu.org/api/v1/repos/Citron/Emulator/releases".
Definition NIGHTLY_UPDATE_URL : string :=
  "https://api.github.com/repos/CollectingW/Citron-CI/releases".

Section Service.

(** The build the service was compiled into. *)
Variable b : Build.

(** [QJsonDocument::fromJson], Qt's decoder. *)
Variable fromJson : string -> QJsonDocument.

(** What extracting the archive at the first path into the second path does
    to the file system, and whether [ExtractArchive] returns [true]: the
    body of that function is libarchive, or a PowerShell command. *)
Variable ExtractArchive : list string -> list string -> gmap (list string) Node
                          -> bool * gmap (list string) Node.

(** The channel stored under [updater/channel], [Nightly] by default. *)
Definition settings_channel (s : State) : string :=
  default "Nightly" (qsettings (ambient s) !! "updater/channel").

(** [UpdaterService::GetCurrentVersion]. *)
Definition GetCurrentVersion (channel : string) (s : State) : string :=
  let active := if Str.empty channel then settings_channel s else channel in
  if String.eqb (Str.toLower active) "nightly"
  then g_citron_hash b
  else g_citron_version b.

(** *** Asset selection (the inner loop of [ParseUpdateResponse]) *)

(** The platform filter, on the asset's file name. *)
Definition os_accepts (name : string) : bool :=
  match platform b with
  | Linux => Str.endsWith_ci ".AppImage" name
  | Windows => Str.endsWith_ci ".zip" name && negb (Str.contains_ci "PGO" name)
  | OtherOS => false
  end.

(** The variant filter, on the asset's file name, for an asset the
    platform filter has accepted. *)
Definition variant_accepts (name : string) : bool :=
  let current_variant := g_citron_variant b in
  match platform b with
  | Linux =>
      if Str.contains "aarch64" current_variant && Str.contains_ci "aarch64" name
      then true
      else if Str.contains "v3" current_variant && Str.contains_ci "v3" name
      then true
      else if negb (Str.contains_ci "v3" name) && negb (Str.contains_ci "aarch64" name)
      then Str.contains "x86_64" current_variant && negb (Str.contains "v3" current_variant)
      else false
  | Windows =>
      if Str.contains "v3" current_variant && Str.contains_ci "v3" name
      then true
      else negb (Str.contains "v3" current_variant) && negb (Str.contains_ci "v3" name)
  | OtherOS => false
  end.

(** The [DownloadOption] built from one element of the [assets] array. *)
Definition asset_option (asset_val : QJsonValue) : DownloadOption :=
  let asset_obj := toObject asset_val in
  {| name := toString (value asset_obj "name");
     url := toString (value asset_obj "browser_download_url") |}.

(** One iteration of the loop over [assets], on the two vectors
    [(os_valid, variant_matched)]. *)
Definition asset_step (acc : list DownloadOption * list DownloadOption)
    (asset_val : QJsonValue) : list DownloadOption * list DownloadOption :=
  let '(os_valid, variant_matched) := acc in
  let opt := asset_option asset_val in
  if negb (os_accepts (name opt)) then (os_valid, variant_matched)
  else
    let os_valid := os_valid ++ [opt] in
    if variant_accepts (name opt)
    then (os_valid, variant_matched ++ [opt])
    else (os_valid, variant_matched).

Definition scan_assets (assets : list QJsonValue)
  : list DownloadOption * list DownloadOption :=
  fold_left asset_step assets ([], []).

(** Priority: Match Variant -> Any OS Valid -> Fail. *)
Definition select_assets (assets : list QJsonValue) : list DownloadOption :=
  let '(os_valid, variant_matched) := scan_assets assets in
  match variant_matched with
  | [] => os_valid
  | _ :: _ => variant_matched
  end.

(** *** [UpdaterService::ParseUpdateResponse] *)

(** The version string derived from a release record. *)
Definition latest_v (channel : string) (rel_obj : QJsonObject) : string :=
  if String.eqb (Str.toLower channel) "stable"
  then toString (value rel_obj "tag_name")
  else ExtractCommitHash (toString (value rel_obj "name")).

(** The [UpdateInfo] filled in for a release record that is chosen. *)
Definition release_info (channel : string) (rel_val : QJsonValue) (s : State)
  : UpdateInfo :=
  let rel_obj := toObject rel_val in
  let v := latest_v channel rel_obj in
  {| version := v;
     changelog := toString (value rel_obj "body");
     release_date := toString (value rel_obj "published_at");
     download_options := select_assets (toArray (value rel_obj "assets"));
     is_newer_version := negb (String.eqb (GetCurrentVersion channel s) v) |}.

(** The loop over the release records. *)
Fixpoint scan_releases (rels : list QJsonValue) (channel : string) (s : State)
  : State :=
  match rels with
  | [] => s
  | rel_val :: rest =>
      let rel_obj := toObject rel_val in
      if Str.empty (latest_v channel rel_obj) then scan_releases rest channel s
      else
        let info := release_info channel rel_val s in
        match download_options info with
        | _ :: _ =>
            emit (UpdateCheckCompleted (is_newer_version info) info)
                 (set_current_update_info info s)
        | [] => scan_releases rest channel s
        end
  end.

Definition ParseUpdateResponse (response : string) (channel : string) (s : State)
  : State :=
  let doc := fromJson response in
  if negb (isArray doc) then s
  else scan_releases (array doc) channel s.

(** *** Backup and staging (Windows only in the source) *)

(** [UpdaterService::CreateBackup]. *)
Definition CreateBackup (s : State) : bool * State :=
  let b_file := backup_path s ++ ["citron.exe.bak"] in
  let '(r, fs') :=
    catch_all
      (attempt (FS.copy_file (app_directory s ++ ["citron.exe"]) b_file) ;;;
       ret true)
      (fs s) in
  (r, set_fs fs' s).

(** [UpdaterService::RestoreBackup]. *)
Definition RestoreBackup (s : State) : bool * State :=
  let b_file := backup_path s ++ ["citron.exe.bak"] in
  let '(r, fs') :=
    catch_all
      (if FS.exists_ (fs s) b_file
       then attempt (FS.copy_file b_file (app_directory s ++ ["citron.exe"])) ;;;
            ret true
       else ret false)
      (fs s) in
  (r, set_fs fs' s).

(** [UpdaterService::CreateUpdateHelperScript]. *)
Definition CreateUpdateHelperScript (staging_path : list string) (s : State)
  : bool * State :=
  let staging_path_str := Str.backslashes (FS.path_string staging_path) in
  let app_path_str := Str.backslashes (FS.path_string (app_directory s)) in
  let exe_path_str :=
    Str.backslashes (FS.path_string (app_directory s ++ ["citron.exe"])) in
  match FS.write_file (staging_path ++ ["apply_update.bat"])
          (script_text staging_path_str app_path_str exe_path_str) (fs s) with
  | Err _ => (false, s)
  | Ok fs' => (true, set_fs fs' s)
  end.

(** The body of the loop of [InstallUpdate] over the regular files found
    below [u_p]. *)
Fixpoint copy_entries (u_p staging : list string) (entries : list (list string))
  : throwing unit :=
  match entries with
  | [] => ret tt
  | entry :: rest =>
      let rel := FS.relative entry u_p in
      let dest := staging ++ rel in
      attempt (FS.create_directories (FS.parent_path dest)) ;;;
      attempt (FS.copy_file entry dest) ;;;
      copy_entries u_p staging rest
  end.

(** [UpdaterService::InstallUpdate]. The [ec] that [remove_all] sets is not
    looked at. *)
Definition InstallUpdate (u_p : list string) (s : State) : bool * State :=
  let staging := app_directory s ++ ["update_staging"] in
  let '(staged, fs') :=
    catch_all
      (attempt (FS.create_directories staging) ;;;
       (fun fs0 =>
          ret tt (FS.remove_all (resists_removal (ambient s)) staging fs0).2) ;;;
       attempt (FS.create_directories staging) ;;;
       entries <- (fun fs0 =>
                     match FS.regular_files_under u_p fs0 with
                     | Ok l => (Some l, fs0)
                     | Err _ => (None, fs0)
                     end) ;;
       copy_entries u_p staging entries ;;;
       ret true)
      (fs s) in
  if staged then CreateUpdateHelperScript staging (set_fs fs' s)
  else (false, set_fs fs' s).

(** *** The public operations *)

(** [UpdaterService::CheckForUpdates]. *)
Definition CheckForUpdates (override_channel : string) (s : State) : State :=
  if update_in_progress s then s
  else
    let channel :=
      if Str.empty override_channel then settings_channel s else override_channel in
    let update_url :=
      if String.eqb (Str.toLower channel) "nightly"
      then NIGHTLY_UPDATE_URL else STABLE_UPDATE_URL in
    let request :=
      {| request_url := update_url; user_agent := Some "Citron-Updater/1.0" |} in
    set_current_reply
      (Some {| reply_request := request; reply_slot := CheckFinished channel;
               reply_finished := false; reply_error := None;
               reply_data := EmptyString |})
      (set_sent (sent s ++ [request]) s).

(** [UpdaterService::DownloadAndInstallUpdate]. *)
Definition DownloadAndInstallUpdate (download_url : string) (s : State) : State :=
  if update_in_progress s then s
  else
    let s := set_cancel_requested false (set_update_in_progress true s) in
    let '(backed_up, s) :=
      match platform b with
      | Windows => CreateBackup s
      | _ => (true, s)
      end in
    if negb backed_up
    then set_update_in_progress false
           (emit (UpdateCompleted PermissionError
                    "Failed to create backup of citron.exe") s)
    else
      let request := {| request_url := download_url; user_agent := None |} in
      set_current_reply
        (Some {| reply_request := request; reply_slot := DownloadFinished;
                 reply_finished := false; reply_error := None;
                 reply_data := EmptyString |})
        (set_sent (sent s ++ [request]) s).

(** [UpdaterService::IsUpdateInProgress]. *)
Definition IsUpdateInProgress (s : State) : bool := update_in_progress s.

(** [QIODevice::readAll] on the current reply: the buffered data, which
    the call removes from the reply. *)
Definition readAll (r : QNetworkReply) (s : State) : string * State :=
  (reply_data r,
   set_current_reply
     (Some {| reply_request := reply_request r; reply_slot := reply_slot r;
              reply_finished := reply_finished r; reply_error := reply_error r;
              reply_data := EmptyString |}) s).

(** [qgetenv("APPIMAGE").constData()], as it is read once the declaration
    of [appimage_env] is over. [qgetenv] returns a temporary [QByteArray]
    that is destroyed at the end of the declaration. For a variable that is
    unset or empty the pointer is to Qt's static empty string and reads as
    the empty string. For any other value it is to the buffer of the
    destroyed array: what [strlen] and the constructor of [path] find there
    is not the value of the variable but [freed_buffer]. *)
Definition appimage_env (s : State) : string :=
  match environ (ambient s) !! "APPIMAGE" with
  | None | Some EmptyString => EmptyString
  | Some _ => freed_buffer (ambient s)
  end.

(** The part of [OnDownloadFinished] compiled on Linux, after the reply
    has been read. The backup is named after [GetCurrentVersion()], called
    without an argument: the channel is then the empty string and the
    stored channel decides. [new_path] is made from the string
    [original_path.string() + ".new"], which is the string read with
    [".new"] added. *)
Definition replace_appimage (data : string) (s : State) : State :=
  let appimage_env := appimage_env s in
  if Str.empty appimage_env
  then
    set_update_in_progress false
      (emit (UpdateError "Not running from an AppImage. Manual update required.") s)
  else
    let original_path := FS.of_string appimage_env in
    let names_directory := FS.ends_in_separator appimage_env in
    let fs1 :=
      if updater_enable_backups (ambient s)
      then
        let backup_dir :=
          if Str.empty (updater_backup_path (ambient s))
          then (if names_directory then original_path
                else FS.parent_path original_path) ++ ["backup"]
          else FS.of_string (updater_backup_path (ambient s)) in
        ignoring_ec
          (if names_directory then fun _ => Err ENOTDIR
           else FS.copy_file original_path
                  (backup_dir ++
                     [("citron-backup-" ++ GetCurrentVersion EmptyString s
                         ++ ".AppImage")%string]))
          (ignoring_ec (FS.create_directories backup_dir) (fs s))
      else fs s in
    let new_path := FS.of_string (appimage_env ++ ".new")%string in
    match FS.write_file new_path data fs1 with
    | Ok fs2 =>
        let fs3 := FS.set_executable new_path fs2 in
        match (if names_directory then Err ENOTDIR
               else FS.rename new_path original_path fs3) with
        | Err ec =>
            set_update_in_progress false
              (emit (UpdateError
                       ("Failed to replace AppImage: " ++ FS.message ec)%string)
                 (set_fs fs3 s))
        | Ok fs4 =>
            set_update_in_progress false
              (emit (UpdateCompleted Success "Success") (set_fs fs4 s))
        end
    | Err _ =>
        set_update_in_progress false
          (emit (UpdateCompleted Success "Success") (set_fs fs1 s))
    end.

(** The part of [OnDownloadFinished] compiled on Windows, after the reply
    has been read: the archive is written and the extraction scheduled. *)
Definition save_archive (data : string) (s : State) : State :=
  let zip_path := temp_download_path s ++ ["citron_update.zip"] in
  let s := set_fs (ignoring_ec (FS.write_file zip_path data) (fs s)) s in
  set_timers (timers s ++ [zip_path]) s.

(** [UpdaterService::OnDownloadFinished]. *)
Definition OnDownloadFinished (s : State) : State :=
  match cancel_requested s, current_reply s with
  | true, _ | _, None => set_update_in_progress false s
  | false, Some r =>
      match reply_error r with
      | Some errorString =>
          set_update_in_progress false (emit (UpdateError errorString) s)
      | None =>
          let '(data, s) := readAll r s in
          match platform b with
          | Windows => save_archive data s
          | Linux => replace_appimage data s
          | OtherOS => s
          end
      end
  end.

(** The callback [OnDownloadFinished] hands to [QTimer::singleShot] on
    Windows, with the [zip_path] it captured. *)
Definition extract_and_install (zip_path : list string) (s : State) : State :=
  let extract_path := temp_download_path s ++ ["extracted"] in
  let '(extracted, fs') := ExtractArchive zip_path extract_path (fs s) in
  let s := set_fs fs' s in
  if negb extracted
  then
    let '(_, s) := RestoreBackup s in
    set_update_in_progress false
      (emit (UpdateCompleted ExtractionError
               "Failed to extract update. Ensure you have permissions.") s)
  else
    let '(installed, s) := InstallUpdate extract_path s in
    if negb installed
    then
      let '(_, s) := RestoreBackup s in
      set_update_in_progress false
        (emit (UpdateCompleted Failed "Failed to stage update files.") s)
    else
      set_update_in_progress false
        (emit (UpdateCompleted Success "Update staged successfully.") s).

(** The lambda [CheckForUpdates] connects to the reply's [finished()]. *)
Definition OnCheckFinished (channel : string) (s : State) : State :=
  match current_reply s with
  | None => s
  | Some r =>
      let s :=
        match reply_error r with
        | None => let '(data, s) := readAll r s in ParseUpdateResponse data channel s
        | Some errorString => emit (UpdateError errorString) s
        end in
      set_current_reply None s
  end.

Definition run_slot (slot : Slot) (s : State) : State :=
  match slot with
  | CheckFinished channel => OnCheckFinished channel s
  | DownloadFinished => OnDownloadFinished s
  end.

(** [QNetworkReply::abort]: nothing on a reply that has finished;
    otherwise the reply fails with [OperationCanceledError] and emits
    [finished()] at once. *)
Definition abort (r : QNetworkReply) (s : State) : State :=
  if reply_finished r then s
  else
    run_slot (reply_slot r)
      (set_current_reply
         (Some {| reply_request := reply_request r; reply_slot := reply_slot r;
                  reply_finished := true;
                  reply_error := Some "Operation canceled";
                  reply_data := reply_data r |}) s).

(** [UpdaterService::CancelUpdate]. *)
Definition CancelUpdate (s : State) : State :=
  if negb (update_in_progress s) then s
  else
    let s := set_cancel_requested true s in
    let s :=
      match current_reply s with
      | Some r => abort r s
      | None => s
      end in
    set_update_in_progress false s.

(** [UpdaterService::OnDownloadProgress]: the percentage is computed in
    [qint64] and cast to [int]. *)
Definition wrap (bits : Z) (z : Z) : Z :=
  ((z + 2 ^ (bits - 1)) mod 2 ^ bits - 2 ^ (bits - 1))%Z.

Definition OnDownloadProgress (r t : Z) (s : State) : State :=
  if (0 <? t)%Z
  then emit (UpdateDownloadProgress
               (wrap 32 (Z.quot (wrap 64 (r * 100)) t)) r t) s
  else s.

(** *** The service in its event loop *)

(** What can happen to the service: a call of one of its public
    operations, or an event delivered by Qt. *)
Inductive Event : Type :=
| Call_CheckForUpdates (override_channel : string)
| Call_DownloadAndInstallUpdate (download_url : string)
| Call_CancelUpdate
(** More bytes of the current reply have arrived. *)
| Bytes_arrive (data : string)
(** The current reply completes, with an error or without. *)
| Reply_finished (error : option string)
(** A reply the service no longer points to completes: its slot still
    runs, on whatever [current_reply] is by then. *)
| Stale_reply_finished (slot : Slot)
(** The oldest pending single-shot timer fires. *)
| Timer_fires.

Definition step (ev : Event) (s : State) : State :=
  match ev with
  | Call_CheckForUpdates override_channel => CheckForUpdates override_channel s
  | Call_DownloadAndInstallUpdate download_url =>
      DownloadAndInstallUpdate download_url s
  | Call_CancelUpdate => CancelUpdate s
  | Bytes_arrive data =>
      match current_reply s with
      | Some r =>
          if reply_finished r then s
          else set_current_reply
                 (Some {| reply_request := reply_request r;
                          reply_slot := reply_slot r;
                          reply_finished := false;
                          reply_error := reply_error r;
                          reply_data := (reply_data r ++ data)%string |}) s
      | None => s
      end
  | Reply_finished error =>
      match current_reply s with
      | Some r =>
          if reply_finished r then s
          else run_slot (reply_slot r)
                 (set_current_reply
                    (Some {| reply_request := reply_request r;
                             reply_slot := reply_slot r;
                             reply_finished := true;
                             reply_error := error;
                             reply_data := reply_data r |}) s)
      | None => s
      end
  | Stale_reply_finished slot => run_slot slot s
  | Timer_fires =>
      match timers s with
      | zip_path :: pending => extract_and_install zip_path (set_timers pending s)
      | [] => s
      end
  end.

Definition run (evs : list Event) (s : State) : State :=
  fold_left (fun s ev => step ev s) evs s.

End Service.

(** ** The helper script [apply_update.bat], once launched

    The script runs outside the process, on commands of the operating
    system; what those commands answer is given by a [HelperWorld]. The
    model follows the script from its start to the label [:wait_done]: the
    loop at [:wait_loop], which counts as the variable [wait_count] does.
    The block after [:copy_loop] has, inside its parentheses, an [echo]
    line with a closing parenthesis that is not escaped, so that [cmd.exe]
    does not read the block as its indentation suggests; it and what
    follows it are not modelled. *)

Record HelperWorld : Type := {
  (** Whether the [n]-th [tasklist] poll still finds [citron.exe]. *)
  citron_running : nat -> bool
}.

Record HelperRun : Type := {
  (** The number of [tasklist] polls made before [:wait_done]. *)
  polls : nat
}.

(** [:wait_loop]; the result is the number of polls made. *)
Equations wait_loop (w : HelperWorld) (wait_count : nat) : nat
  by wf (61 - wait_count) lt :=
wait_loop w wait_count with citron_running w wait_count := {
  | false => S wait_count
  | true with decide (60 < S wait_count) := {
      | left _ => S wait_count
      | right _ => wait_loop w (S wait_count) } }.
Next Obligation. lia. Qed.

Definition apply_update_bat (w : HelperWorld) : HelperRun :=
  {| polls := wait_loop w 0 |}.

(** ** Reference notions used by the statements below *)

Section Reference.

Variable b : Build.

(** The platform-valid subset of an asset list: the options of the assets
    the platform filter keeps, in the order of the list. *)
Definition os_valid_subset (assets : list QJsonValue) : list DownloadOption :=
  List.filter (fun opt => os_accepts b (name opt)) (map asset_option assets).

(** The variant-matched subset: the platform-valid options the variant
    filter keeps as well. *)
Definition variant_matched_subset (assets : list QJsonValue)
  : list DownloadOption :=
  List.filter (fun opt => os_accepts b (name opt) && variant_accepts b (name opt))
    (map asset_option assets).

Definition is_nil {A : Type} (l : list A) : bool :=
  match l with [] => true | _ :: _ => false end.

(** The assets of a release record are compatible: selecting among them
    gives a non-empty list of options. *)
Definition has_compatible_asset (rel_val : QJsonValue) : bool :=
  negb (is_nil (select_assets b (toArray (value (toObject rel_val) "assets")))).

(** A version string can be derived from the release record. *)
Definition has_version (channel : string) (rel_val : QJsonValue) : bool :=
  negb (Str.empty (latest_v channel (toObject rel_val))).

(** The state the service is in once it has chosen [rel_val]: the
    release is stored and announced. *)
Definition chosen (channel : string) (rel_val : QJsonValue) (s : State) : State :=
  let info := release_info b channel rel_val s in
  emit (UpdateCheckCompleted (is_newer_version info) info)
       (set_current_update_info info s).

End Reference.


(** A signal that carries an [UpdateResult]. *)
Definition is_completion (sig : Signal) : bool :=
  match sig with UpdateCompleted _ _ => true | _ => false end.

(** A signal that reports an error to the caller. *)
Definition is_error_report (sig : Signal) : bool :=
  match sig with
  | UpdateError _ => true
  | UpdateCompleted Success _ => false
  | UpdateCompleted _ _ => true
  | _ => false
  end.

(** Every directory of the first file system is a directory of the
    second. *)
Definition dirs_persist (fs fs' : gmap (list string) Node) : Prop :=
  forall q, fs !! q = Some Directory -> fs' !! q = Some Directory.




(** ** Sample builds, feeds and states *)

Module Sample.

Definition linux_build : Build :=
  {| platform := Linux; g_citron_variant := "x86_64-v3";
     g_citron_version := "v1.0.0"; g_citron_hash := "a1b2c3d" |}.

Definition windows_build : Build :=
  {| platform := Windows; g_citron_variant := "v3";
     g_citron_version := "v1.0.0"; g_citron_hash := "a1b2c3d" |}.

Definition asset (file : string) : QJsonValue :=
  JObject [("name", JString file);
           ("browser_download_url", JString ("https://dl.example/" ++ file)%string)].

Definition release (tag title : string) (assets : list QJsonValue) : QJsonValue :=
  JObject [("tag_name", JString tag); ("name", JString title);
           ("body", JString "notes"); ("published_at", JString "2025-01-01");
           ("assets", JArray assets)].

(** A nightly feed whose newest record has a compatible asset but a title
    without a commit hash. *)
Definition untitled : QJsonValue := release "nightly" "Latest" [asset "citron.AppImage"].
Definition titled : QJsonValue :=
  release "nightly" "Nightly Build - 0f9e8d7" [asset "citron-v3.AppImage"].
Definition no_assets : QJsonValue := release "nightly" "Nightly Build - 1234567" [].
Definition oldest : QJsonValue :=
  release "nightly" "Nightly Build - a1b2c3d" [asset "citron.AppImage"].

(** Decoders standing for [QJsonDocument::fromJson] on a given payload. *)
Definition decodes_to (doc : QJsonDocument) : string -> QJsonDocument :=
  fun _ => doc.

(** Extractors standing for [ExtractArchive]: one that fails, and one
    that unpacks a single [citron.exe]. *)
Definition failing_extractor (a_p e_p : list string) (fs : gmap (list string) Node)
  : bool * gmap (list string) Node := (false, fs).

Definition unpacking_extractor (a_p e_p : list string) (fs : gmap (list string) Node)
  : bool * gmap (list string) Node :=
  match FS.create_directories e_p fs with
  | Ok fs' => (true, <[e_p ++ ["citron.exe"] := RegularFile "new build" false]> fs')
  | Err _ => (false, fs)
  end.

(** An extractor that unpacks a file [apply_update.bat/readme.txt]: the
    archive holds a directory with the name of the helper script. *)
Definition awkward_extractor (a_p e_p : list string) (fs : gmap (list string) Node)
  : bool * gmap (list string) Node :=
  match FS.create_directories (e_p ++ ["apply_update.bat"]) fs with
  | Ok fs' =>
      (true, <[e_p ++ ["apply_update.bat"; "readme.txt"] := RegularFile "notes" false]> fs')
  | Err _ => (false, fs)
  end.

Definition no_info : UpdateInfo :=
  {| version := EmptyString; changelog := EmptyString; release_date := EmptyString;
     download_options := []; is_newer_version := false |}.

Definition no_settings : Ambient :=
  {| qsettings := ∅; updater_enable_backups := false;
     updater_backup_path := EmptyString; environ := ∅;
     resists_removal := fun _ => false; freed_buffer := EmptyString |}.

(** An installation under [C:/citron] with a backup of an older
    executable. *)
Definition installed : gmap (list string) Node :=
  {[ ["C:"] := Directory;
     ["C:"; "citron"] := Directory;
     ["C:"; "citron"; "citron.exe"] := RegularFile "current build" true;
     ["C:"; "citron"; "backup"] := Directory;
     ["C:"; "citron"; "backup"; "citron.exe.bak"] := RegularFile "previous build" true;
     ["C:"; "Temp"] := Directory;
     ["C:"; "Temp"; "citron_updater"] := Directory ]}.

(** Its staging directory. *)
Definition staging_directory : list string := ["C:"; "citron"; "update_staging"].

(** The same installation without its executable. *)
Definition broken : gmap (list string) Node :=
  delete ["C:"; "citron"; "citron.exe"] installed.

Definition idle (fs0 : gmap (list string) Node) : State :=
  {| update_in_progress := false; cancel_requested := false;
     current_reply := None; current_update_info := no_info;
     app_directory := ["C:"; "citron"];
     temp_download_path := ["C:"; "Temp"; "citron_updater"];
     backup_path := ["C:"; "citron"; "backup"];
     ambient := no_settings; fs := fs0; sent := []; timers := []; emitted := [] |}.

(** A download reply, as [DownloadAndInstallUpdate] creates it, in the
    given condition. *)
Definition download_reply (finished : bool) (error : option string) (data : string)
  : QNetworkReply :=
  {| reply_request := {| request_url := "https://dl.example/citron.zip";
                         user_agent := None |};
     reply_slot := DownloadFinished; reply_finished := finished;
     reply_error := error; reply_data := data |}.

(** The service while a download is under way. *)
Definition downloading (r : QNetworkReply) : State :=
  set_current_reply (Some r) (set_update_in_progress true (idle installed)).

End Sample.

(** ** Further reference notions *)

(** Every character of the string is one of [0-9a-fA-F]. *)
Fixpoint all_hex (s : string) : bool :=
  match s with
  | EmptyString => true
  | String c s' => Str.is_hex c && all_hex s'
  end.

(** [s] has seven hexadecimal digits in a row somewhere. *)
Definition has_hex_run (s : string) : Prop :=
  exists pre h suf,
    s = (pre ++ h ++ suf)%string /\ String.length h = 7 /\ all_hex h = true.

(** No character of the string is ['/']. *)
Fixpoint no_slash (s : string) : bool :=
  match s with
  | EmptyString => true
  | String c s' => negb (Ascii.eqb c "/"%char) && no_slash s'
  end.

(** The second state differs from the first at most in the stored
    release and the signals emitted: flags, reply, file system, requests
    and timers are the same. *)
Definition same_operation_state (s s' : State) : Prop :=
  update_in_progress s' = update_in_progress s /\
  cancel_requested s' = cancel_requested s /\
  current_reply s' = current_reply s /\
  fs s' = fs s /\
  sent s' = sent s /\
  timers s' = timers s.

(** ** Further members of [UpdaterService] *)

(** [UpdaterService::EnsureDirectoryExists]: [create_directories(p, ec)]
    answers whether it has created the directory, and [exists(p)] is asked
    when it has not. *)
Definition EnsureDirectoryExists (p : list string) (s : State) : bool * State :=
  match FS.create_directories p (fs s) with
  | Ok fs' =>
      (negb (FS.is_directory (fs s) p) || FS.exists_ fs' p, set_fs fs' s)
  | Err _ => (FS.exists_ (fs s) p, s)
  end.

(** [UpdaterService::CleanupFiles]: the answer is [!ec]. *)
Definition CleanupFiles (s : State) : bool * State :=
  if FS.exists_ (fs s) (temp_download_path s)
  then
    let '(ec, fs') :=
      FS.remove_all (resists_removal (ambient s)) (temp_download_path s) (fs s) in
    (negb ec, set_fs fs' s)
  else (true, s).

(** [UpdaterService::LaunchUpdateHelper]: the command handed to
    [QProcess::startDetached], if any, and the result; [started] is what
    [startDetached] answers. *)
Definition LaunchUpdateHelper (started : bool) (s : State)
  : bool * option (string * list string) :=
  let sc := app_directory s ++ ["update_staging"; "apply_update.bat"] in
  if negb (FS.exists_ (fs s) sc) then (false, None)
  else (started, Some ("cmd.exe", ["/C"; FS.path_string sc])).

(** ** The settings page: [ConfigureFilesystem]

    The parts of the page that compute: the text [SetDirectory] puts into
    a line edit, and the loop of [OnRunAutoloader] over the files found.
    What the dialogs answer and what [ContentManager::InstallNSP] returns
    are inputs. *)

Module ContentManager.

Inductive InstallResult : Type :=
| Success
| Overwrite
| Failure
| BaseInstallAttempted.

End ContentManager.

Module ConfigureFilesystem.

Definition CopyBufferSize : Z := 4194304.

(** The last character of a string ([QString::back]). *)
Fixpoint back (s : string) : option ascii :=
  match s with
  | EmptyString => None
  | String c EmptyString => Some c
  | String _ s' => back s'
  end.

(** [ConfigureFilesystem::SetDirectory]: the text of the line edit
    afterwards, [str] being what the file dialog returned (empty when the
    dialog was dismissed). *)
Definition SetDirectory (str : string) (edit_text : string) : string :=
  if Str.empty str then edit_text
  else match back str with
       | Some "/"%char => str
       | _ => (str ++ "/")%string
       end.

(** A file the autoloader found, with what the run will meet when it gets
    to it: its size, whether the progress dialog is gone or cancelled by
    then, and the result of installing it. *)
Record NspFile : Type := {
  file : string;
  size : Z;
  cancelled_by_then : bool;
  install_result : ContentManager.InstallResult
}.

(** The number of copy buffers a file takes: [qint64] plus [size_t] is
    computed in 64-bit unsigned arithmetic. *)
Definition chunks (file_size : Z) : Z :=
  (((file_size + CopyBufferSize - 1) mod 2 ^ 64) / CopyBufferSize)%Z.

(** [total_chunks], accumulated in a [qint64]. *)
Definition total_chunks (sizes : list Z) : Z :=
  fold_left (fun total file_size => wrap 64 (total + chunks file_size)) sizes 0%Z.

(** [QFileInfo::fileName]: what follows the last ['/']. *)
Fixpoint fileName_from (cur : string) (path : string) : string :=
  match path with
  | EmptyString => cur
  | String c rest =>
      if Ascii.eqb c "/"%char then fileName_from EmptyString rest
      else fileName_from (cur ++ String c EmptyString) rest
  end.

Definition fileName (path : string) : string := fileName_from EmptyString path.

(** The variables of the installation loop. *)
Record Tally : Type := {
  new_files : list string;
  overwritten_files : list string;
  failed_files : list string;
  detected_base_install : bool;
  was_cancelled : bool;
  remaining : Z
}.

(** One pass of the loop body for a file that is reached and installed. *)
Definition record_result (f : NspFile) (t : Tally) : Tally :=
  let n := fileName (file f) in
  let t' :=
    match install_result f with
    | ContentManager.Success =>
        {| new_files := new_files t ++ [n];
           overwritten_files := overwritten_files t;
           failed_files := failed_files t;
           detected_base_install := detected_base_install t;
           was_cancelled := was_cancelled t; remaining := remaining t |}
    | ContentManager.Overwrite =>
        {| new_files := new_files t;
           overwritten_files := overwritten_files t ++ [n];
           failed_files := failed_files t;
           detected_base_install := detected_base_install t;
           was_cancelled := was_cancelled t; remaining := remaining t |}
    | ContentManager.Failure =>
        {| new_files := new_files t;
           overwritten_files := overwritten_files t;
           failed_files := failed_files t ++ [n];
           detected_base_install := detected_base_install t;
           was_cancelled := was_cancelled t; remaining := remaining t |}
    | ContentManager.BaseInstallAttempted =>
        {| new_files := new_files t;
           overwritten_files := overwritten_files t;
           failed_files := failed_files t ++ [n];
           detected_base_install := true;
           was_cancelled := was_cancelled t; remaining := remaining t |}
    end in
  {| new_files := new_files t'; overwritten_files := overwritten_files t';
     failed_files := failed_files t';
     detected_base_install := detected_base_install t';
     was_cancelled := was_cancelled t'; remaining := wrap 32 (remaining t' - 1) |}.

(** The loop over [files_to_install]: it stops at the first file that
    finds the progress dialog gone or cancelled. *)
Fixpoint install_loop (files : list NspFile) (t : Tally) : Tally :=
  match files with
  | [] => t
  | f :: rest =>
      if cancelled_by_then f
      then {| new_files := new_files t; overwritten_files := overwritten_files t;
              failed_files := failed_files t;
              detected_base_install := detected_base_install t;
              was_cancelled := true; remaining := remaining t |}
      else install_loop rest (record_result f t)
  end.

(** The message boxes [OnRunAutoloader] can show once the files have been
    collected. The result box names a count only when it is not zero. *)
Inductive Dialog : Type :=
| NoNspFilesFound
| SelectedFilesAreEmpty
| BaseGamesSkipped
| NoNewFilesInstalled
| InstallResults (newly overwritten failed : option nat).

Definition count_if_any (l : list string) : option nat :=
  match l with [] => None | _ :: _ => Some (List.length l) end.

(** What is shown after the loop. *)
Definition report (t : Tally) : list Dialog :=
  (if detected_base_install t then [BaseGamesSkipped] else []) ++
  (if is_nil (new_files t) && is_nil (overwritten_files t) && is_nil (failed_files t)
   then (if negb (was_cancelled t) then [NoNewFilesInstalled] else [])
   else [InstallResults (count_if_any (new_files t))
                        (count_if_any (overwritten_files t))
                        (count_if_any (failed_files t))]).

(** [ConfigureFilesystem::OnRunAutoloader] from the point where the files
    have been collected: the message boxes shown, and whether the cached
    game list is dropped and a refresh requested. *)
Definition OnRunAutoloader (files : list NspFile) : list Dialog * bool :=
  if is_nil files then ([NoNspFilesFound], false)
  else if (total_chunks (map size files) =? 0)%Z then ([SelectedFilesAreEmpty], false)
  else
    let t := install_loop files
               {| new_files := []; overwritten_files := []; failed_files := [];
                  detected_base_install := false; was_cancelled := false;
                  remaining := wrap 32 (Z.of_nat (List.length files)) |} in
    (report t, true).

End ConfigureFilesystem.

(** The files the installation loop gets to: those before the first one
    that finds the progress dialog gone or cancelled. *)
Fixpoint reached (files : list ConfigureFilesystem.NspFile)
  : list ConfigureFilesystem.NspFile :=
  match files with
  | [] => []
  | f :: rest =>
      if ConfigureFilesystem.cancelled_by_then f then [] else f :: reached rest
  end.

(** The names of the files whose installation gave a result of one of
    the given kinds. *)
Definition names_with (kind : ContentManager.InstallResult -> bool)
    (files : list ConfigureFilesystem.NspFile) : list string :=
  map (fun f => ConfigureFilesystem.fileName (ConfigureFilesystem.file f))
      (List.filter (fun f => kind (ConfigureFilesystem.install_result f)) files).

Definition is_new (r : ContentManager.InstallResult) : bool :=
  match r with ContentManager.Success => true | _ => false end.

Definition is_overwrite (r : ContentManager.InstallResult) : bool :=
  match r with ContentManager.Overwrite => true | _ => false end.

Definition is_failed (r : ContentManager.InstallResult) : bool :=
  match r with
  | ContentManager.Failure | ContentManager.BaseInstallAttempted => true
  | _ => false
  end.

Definition is_base_install (r : ContentManager.InstallResult) : bool :=
  match r with ContentManager.BaseInstallAttempted => true | _ => false end.

(** ** Further sample inputs *)

Module Sample2.

Definition other_build : Build :=
  {| platform := OtherOS; g_citron_variant := "arm64";
     g_citron_version := "v1.0.0"; g_citron_hash := "a1b2c3d" |}.

(** The Windows service at the moment its download has completed and the
    extraction timer is pending. *)
Definition windows_downloaded : State :=
  run Sample.windows_build (Sample.decodes_to DocNull) Sample.unpacking_extractor
    [Call_DownloadAndInstallUpdate "https://dl.example/citron.zip";
     Bytes_arrive "archive"; Reply_finished None]
    (Sample.idle Sample.installed).

(** The Windows installation once an archive has been unpacked, with a
    file left in the staging directory by an earlier attempt. *)
Definition unpacked : gmap (list string) Node :=
  <[ ["C:"; "citron"; "update_staging"; "stale.dll"] := RegularFile "stale" false ]>
    (<[ ["C:"; "citron"; "update_staging"] := Directory ]>
       (Sample.unpacking_extractor
          ["C:"; "Temp"; "citron_updater"; "citron_update.zip"]
          ["C:"; "Temp"; "citron_updater"; "extracted"] Sample.installed).2).

(** The same, when the operating system holds on to [stale.dll]. *)
Definition stale_in_use : Ambient :=
  {| qsettings := ∅; updater_enable_backups := false;
     updater_backup_path := EmptyString; environ := ∅;
     resists_removal :=
       fun q => bool_decide (q = ["C:"; "citron"; "update_staging"; "stale.dll"]);
     freed_buffer := EmptyString |}.

(** Settings under which the operating system holds on to the downloaded
    archive, and an installation in which the archive has been saved. *)
Definition archive_in_use : Ambient :=
  {| qsettings := ∅; updater_enable_backups := false;
     updater_backup_path := EmptyString; environ := ∅;
     resists_removal :=
       fun q =>
         bool_decide (q = ["C:"; "Temp"; "citron_updater"; "citron_update.zip"]);
     freed_buffer := EmptyString |}.

Definition downloaded : gmap (list string) Node :=
  <[ ["C:"; "Temp"; "citron_updater"; "citron_update.zip"]
     := RegularFile "archive" false ]> Sample.installed.

Definition idle_in (a : Ambient) (fs0 : gmap (list string) Node) : State :=
  {| update_in_progress := false; cancel_requested := false;
     current_reply := None; current_update_info := Sample.no_info;
     app_directory := ["C:"; "citron"];
     temp_download_path := ["C:"; "Temp"; "citron_updater"];
     backup_path := ["C:"; "citron"; "backup"];
     ambient := a; fs := fs0; sent := []; timers := []; emitted := [] |}.

End Sample2.

(** * Properties *)

(** ** The examples of the design document *)

Example ExtractCommitHash_nightly_title :
  ExtractCommitHash "Nightly Build - a1b2c3d" = "a1b2c3d".
Proof. reflexivity. Qed.

Example ExtractCommitHash_takes_first_long_run :
  ExtractCommitHash "Build 12345 of deadbeefcafe, not 0123456789" = "deadbeefcafe".
Proof. reflexivity. Qed.

Example ExtractCommitHash_no_hash :
  ExtractCommitHash "Latest" = EmptyString.
Proof. reflexivity. Qed.

Example select_assets_variant_only :
  select_assets Sample.windows_build
    [Sample.asset "app-v3.zip"; Sample.asset "app.zip"] =
  [asset_option (Sample.asset "app-v3.zip")].
Proof. reflexivity. Qed.

Example select_assets_wrong_platform :
  select_assets Sample.windows_build [Sample.asset "app.AppImage"] = [].
Proof. reflexivity. Qed.

(** ** The commit hash in a nightly title *)

Lemma hex_run_length n s : String.length (Str.hex_run n s) <= n.
Proof.
  revert s. induction n as [|n IH]; intros [|c s]; cbn; try lia.
  destruct (Str.is_hex c); cbn; [|lia]. specialize (IH s). lia.
Qed.

Lemma hex_run_hex n s c :
  In c (list_ascii_of_string (Str.hex_run n s)) -> Str.is_hex c = true.
Proof.
  revert s. induction n as [|n IH]; intros [|c' s]; cbn; try done.
  destruct (Str.is_hex c') eqn:Hc; cbn; [|done].
  intros [<-|Hin]; [done|]. by eapply IH.
Qed.

(** What [ExtractCommitHash] returns is empty or a run of 7 to 40
    hexadecimal digits. *)
Lemma ExtractCommitHash_shape version_string :
  ExtractCommitHash version_string = EmptyString \/
  (7 <= String.length (ExtractCommitHash version_string) <= 40 /\
   forall c, In c (list_ascii_of_string (ExtractCommitHash version_string)) ->
             Str.is_hex c = true).
Proof.
  induction version_string as [|c rest IH]; [by left|].
  cbn [ExtractCommitHash].
  destruct (7 <=? String.length (Str.hex_run 40 (String c rest))) eqn:Hlen;
    [|exact IH].
  right. apply Nat.leb_le in Hlen. split.
  - split; [done|]. apply hex_run_length.
  - intros c'. apply hex_run_hex.
Qed.

(** ** Asset selection *)

Section AssetSelection.

Variable b : Build.

Lemma asset_step_appends os_valid variant_matched asset_val :
  asset_step b (os_valid, variant_matched) asset_val =
  (os_valid ++ os_valid_subset b [asset_val],
   variant_matched ++ variant_matched_subset b [asset_val]).
Proof.
  unfold asset_step, os_valid_subset, variant_matched_subset.
  cbn [map List.filter].
  destruct (os_accepts b (name (asset_option asset_val))); cbn [negb andb];
    [destruct (variant_accepts b (name (asset_option asset_val)))|];
    by rewrite ?app_nil_r.
Qed.

Lemma os_valid_subset_cons asset_val assets :
  os_valid_subset b (asset_val :: assets) =
  os_valid_subset b [asset_val] ++ os_valid_subset b assets.
Proof.
  unfold os_valid_subset. cbn [map List.filter].
  by destruct (os_accepts b (name (asset_option asset_val))).
Qed.

Lemma variant_matched_subset_cons asset_val assets :
  variant_matched_subset b (asset_val :: assets) =
  variant_matched_subset b [asset_val] ++ variant_matched_subset b assets.
Proof.
  unfold variant_matched_subset. cbn [map List.filter].
  by destruct (os_accepts b (name (asset_option asset_val)) &&
               variant_accepts b (name (asset_option asset_val))).
Qed.

Lemma fold_asset_step assets os_valid variant_matched :
  fold_left (asset_step b) assets (os_valid, variant_matched) =
  (os_valid ++ os_valid_subset b assets,
   variant_matched ++ variant_matched_subset b assets).
Proof.
  revert os_valid variant_matched.
  induction assets as [|asset_val assets IH]; intros os_valid variant_matched.
  - unfold os_valid_subset, variant_matched_subset. cbn.
    by rewrite !app_nil_r.
  - cbn [fold_left]. rewrite asset_step_appends, IH.
    rewrite (os_valid_subset_cons asset_val assets).
    rewrite (variant_matched_subset_cons asset_val assets).
    by rewrite !app_assoc.
Qed.

Lemma scan_assets_subsets assets :
  scan_assets b assets = (os_valid_subset b assets, variant_matched_subset b assets).
Proof. unfold scan_assets. by rewrite fold_asset_step. Qed.

(** C2. The selection step returns the variant-matched subset when that
    subset is not empty and the platform-valid subset otherwise (which may
    be empty); so as soon as one platform-valid asset matches the running
    variant, the result is exactly the variant-matched subset. *)
Theorem select_assets_priority (assets : list QJsonValue) :
  select_assets b assets =
    (if is_nil (variant_matched_subset b assets)
     then os_valid_subset b assets
     else variant_matched_subset b assets) /\
  (forall asset_val,
      In asset_val assets ->
      os_accepts b (name (asset_option asset_val)) = true ->
      variant_accepts b (name (asset_option asset_val)) = true ->
      select_assets b assets = variant_matched_subset b assets).
Proof.
  assert (Hsel : select_assets b assets =
    (if is_nil (variant_matched_subset b assets)
     then os_valid_subset b assets
     else variant_matched_subset b assets)).
  { unfold select_assets. rewrite scan_assets_subsets.
    by destruct (variant_matched_subset b assets). }
  split; [exact Hsel|].
  intros asset_val Hin Hos Hvar. rewrite Hsel.
  assert (Hmem : In (asset_option asset_val) (variant_matched_subset b assets)).
  { unfold variant_matched_subset. apply filter_In. split.
    - by apply in_map.
    - by rewrite Hos, Hvar. }
  by destruct (variant_matched_subset b assets).
Qed.

End AssetSelection.

(** ** Release selection: [ParseUpdateResponse] *)

Section Parsing.

Variable b : Build.
Variable fromJson : string -> QJsonDocument.

Lemma scan_releases_skip rel_val rest channel s :
  has_version channel rel_val && has_compatible_asset b rel_val = false ->
  scan_releases b (rel_val :: rest) channel s = scan_releases b rest channel s.
Proof.
  unfold has_version, has_compatible_asset. cbn [scan_releases].
  destruct (Str.empty (latest_v channel (toObject rel_val))); [done|].
  cbn [download_options release_info negb andb].
  by destruct (select_assets b (toArray (value (toObject rel_val) "assets"))).
Qed.

Lemma scan_releases_choose rel_val rest channel s :
  has_version channel rel_val = true ->
  has_compatible_asset b rel_val = true ->
  scan_releases b (rel_val :: rest) channel s = chosen b channel rel_val s.
Proof.
  unfold has_version, has_compatible_asset, chosen. cbn [scan_releases].
  destruct (Str.empty (latest_v channel (toObject rel_val))); [done|].
  cbn [download_options release_info].
  by destruct (select_assets b (toArray (value (toObject rel_val) "assets"))).
Qed.

(** The loop either leaves the service as it was or chooses one of the
    records. *)
Lemma scan_releases_outcome rels channel s :
  scan_releases b rels channel s = s \/
  exists rel_val, In rel_val rels /\
    has_version channel rel_val = true /\
    has_compatible_asset b rel_val = true /\
    scan_releases b rels channel s = chosen b channel rel_val s.
Proof.
  induction rels as [|rel_val rest IH]; [by left|].
  destruct (has_version channel rel_val) eqn:Hv;
    [destruct (has_compatible_asset b rel_val) eqn:Hc|].
  - right. exists rel_val. split; [by left|].
    by rewrite scan_releases_choose.
  - rewrite scan_releases_skip by (by rewrite Hv, Hc).
    destruct IH as [IH|(r & Hin & ? & ? & ?)]; [by left|].
    right. exists r. split; [by right|]. done.
  - rewrite scan_releases_skip by (by rewrite Hv).
    destruct IH as [IH|(r & Hin & ? & ? & ?)]; [by left|].
    right. exists r. split; [by right|]. done.
Qed.

Lemma ParseUpdateResponse_outcome response channel s :
  ParseUpdateResponse b fromJson response channel s = s \/
  exists rel_val,
    ParseUpdateResponse b fromJson response channel s = chosen b channel rel_val s.
Proof.
  unfold ParseUpdateResponse.
  destruct (isArray (fromJson response)); cbn [negb]; [|by left].
  destruct (scan_releases_outcome (array (fromJson response)) channel s)
    as [H|(r & _ & _ & _ & H)]; [by left|].
  right. by exists r.
Qed.

(** When no record qualifies, the service is left as it was and nothing
    is announced. *)
Lemma ParseUpdateResponse_none_eligible response channel s :
  Forall (fun r => has_version channel r && has_compatible_asset b r = false)
         (array (fromJson response)) ->
  ParseUpdateResponse b fromJson response channel s = s.
Proof.
  intros Hnone. unfold ParseUpdateResponse.
  destruct (isArray (fromJson response)); cbn [negb]; [|done].
  induction Hnone as [|r rest Hr _ IH]; [done|].
  by rewrite scan_releases_skip.
Qed.

(** C1, as amended. In a feed that is a JSON array, the release chosen is
    the first record, in feed order, from which a version string can be
    derived and whose assets give a non-empty option list: the
    [UpdateInfo] is built from that record, stored and announced, and
    nothing of the records after it enters the result. *)
Theorem ParseUpdateResponse_first_eligible
    (response channel : string) (s : State)
    (skipped : list QJsonValue) (rel_val : QJsonValue) (older : list QJsonValue) :
  fromJson response = DocArray (skipped ++ rel_val :: older) ->
  Forall (fun r => has_version channel r && has_compatible_asset b r = false)
         skipped ->
  has_version channel rel_val = true ->
  has_compatible_asset b rel_val = true ->
  ParseUpdateResponse b fromJson response channel s = chosen b channel rel_val s.
Proof.
  intros Hdoc Hskipped Hv Hc. unfold ParseUpdateResponse. rewrite Hdoc.
  cbn [isArray negb array]. clear Hdoc.
  induction Hskipped as [|r skipped Hr _ IH]; cbn [app].
  - by apply scan_releases_choose.
  - by rewrite scan_releases_skip.
Qed.



(** C4, as amended. A payload that does not decode to a JSON array is
    dropped: [ParseUpdateResponse] returns at once and leaves the service
    exactly as it was, and the check operation that received the payload
    ends by releasing the reply, without any signal - in particular
    without any error - reaching the caller. *)
Theorem ParseUpdateResponse_not_an_array
    (response channel : string) (s : State) :
  isArray (fromJson response) = false ->
  ParseUpdateResponse b fromJson response channel s = s /\
  (forall r,
      current_reply s = Some r ->
      reply_error r = None ->
      reply_data r = response ->
      let s' := OnCheckFinished b fromJson channel s in
      emitted s' = emitted s /\
      current_update_info s' = current_update_info s /\
      current_reply s' = None /\
      fs s' = fs s /\
      update_in_progress s' = update_in_progress s).
Proof.
  intros Hdoc.
  assert (Hdrop : forall s0, ParseUpdateResponse b fromJson response channel s0 = s0).
  { intros s0. unfold ParseUpdateResponse. by rewrite Hdoc. }
  split; [apply Hdrop|].
  intros r Hreply Herror Hdata s'. unfold s', OnCheckFinished.
  rewrite Hreply, Herror. cbn [readAll]. rewrite Hdata, Hdrop. by cbn.
Qed.

End Parsing.

(** ** The file system operations *)

Section FileSystemFacts.

Implicit Types fs : gmap (list string) Node.
Implicit Types p q : list string.

Lemma dirs_persist_refl fs : dirs_persist fs fs.
Proof. by intros q. Qed.

Lemma dirs_persist_trans fs1 fs2 fs3 :
  dirs_persist fs1 fs2 -> dirs_persist fs2 fs3 -> dirs_persist fs1 fs3.
Proof. intros H12 H23 q Hq. by apply H23, H12. Qed.

Lemma dirs_persist_insert fs p n :
  fs !! p <> Some Directory -> dirs_persist fs (<[p := n]> fs).
Proof.
  intros Hp q Hq. rewrite lookup_insert_ne; [done|]. intros ->. by apply Hp.
Qed.

Lemma is_directory_lookup fs p :
  p <> [] -> FS.is_directory fs p = true <-> fs !! p = Some Directory.
Proof.
  intros Hp. unfold FS.is_directory. destruct p as [|c p]; [done|].
  destruct (fs !! (c :: p)) as [[]|]; split; by intros.
Qed.

Lemma mkdirs_dirs_persist rest pre fs fs' :
  FS.mkdirs pre rest fs = Ok fs' -> dirs_persist fs fs'.
Proof.
  revert pre fs. induction rest as [|c rest IH]; intros pre fs; cbn [FS.mkdirs].
  - intros [= ->]. apply dirs_persist_refl.
  - destruct (fs !! (pre ++ [c])) as [[]|] eqn:Hc; [done|by apply IH|].
    intros H. apply IH in H.
    eapply dirs_persist_trans; [|exact H].
    apply dirs_persist_insert. by rewrite Hc.
Qed.

(** When no component on the way is a regular file, the directories are
    created and the path is a directory afterwards. *)
Lemma mkdirs_succeeds rest pre fs :
  (forall k, 0 < k <= List.length rest ->
     forall data x, fs !! (pre ++ take k rest) <> Some (RegularFile data x)) ->
  exists fs', FS.mkdirs pre rest fs = Ok fs' /\
    (rest <> [] -> fs' !! (pre ++ rest) = Some Directory).
Proof.
  revert pre fs. induction rest as [|c rest IH]; intros pre fs Hfree;
    cbn [FS.mkdirs].
  - by exists fs.
  - assert (Hnext : forall fs1,
        fs1 !! (pre ++ [c]) = Some Directory ->
        (forall q, q <> pre ++ [c] -> fs1 !! q = fs !! q) ->
        exists fs', FS.mkdirs (pre ++ [c]) rest fs1 = Ok fs' /\
          (c :: rest <> [] -> fs' !! (pre ++ c :: rest) = Some Directory)).
    { intros fs1 Hdir Hsame.
      destruct (IH (pre ++ [c]) fs1) as (fs' & Hok & Hlast).
      - intros k Hk data x.
        destruct (decide (pre ++ [c] = (pre ++ [c]) ++ take k rest)) as [He|Hne].
        + rewrite <- He, Hdir. done.
        + rewrite Hsame by done. rewrite <- app_assoc. cbn [app].
          apply (Hfree (S k)). cbn [List.length]. lia.
      - exists fs'. split; [done|]. intros _.
        destruct rest as [|c' rest'].
        + cbn [FS.mkdirs] in Hok. injection Hok as <-. done.
        + rewrite (cons_middle c pre), app_assoc. by apply Hlast. }
    destruct (fs !! (pre ++ [c])) as [[data x|]|] eqn:Hc.
    + exfalso. apply (Hfree 1 ltac:(cbn [List.length]; lia) data x).
      cbn [take]. by rewrite take_0.
    + by apply Hnext.
    + apply Hnext.
      * apply lookup_insert_eq.
      * intros q Hq. by apply lookup_insert_ne.
Qed.

(** Conversely, a successful [create_directories] shows that every
    component on the way is a directory afterwards. *)
Lemma mkdirs_prefixes rest pre fs fs' :
  FS.mkdirs pre rest fs = Ok fs' ->
  forall k, 0 < k <= List.length rest -> fs' !! (pre ++ take k rest) = Some Directory.
Proof.
  revert pre fs. induction rest as [|c rest IH]; intros pre fs Hok k Hk;
    cbn [List.length] in Hk; [lia|].
  cbn [FS.mkdirs] in Hok.
  assert (Hstep : forall fs1, fs1 !! (pre ++ [c]) = Some Directory ->
            FS.mkdirs (pre ++ [c]) rest fs1 = Ok fs' ->
            fs' !! (pre ++ take k (c :: rest)) = Some Directory).
  { intros fs1 Hdir Hok1. destruct k as [|k]; [lia|]. cbn [take].
    destruct k as [|k].
    - rewrite take_0. by eapply mkdirs_dirs_persist.
    - rewrite (cons_middle c pre), app_assoc. eapply IH; [done|]. lia. }
  destruct (fs !! (pre ++ [c])) as [[]|] eqn:Hc; [done|by eapply Hstep|].
  eapply Hstep; [|done]. apply lookup_insert_eq.
Qed.

Lemma copy_file_dirs_persist from to fs fs' :
  FS.copy_file from to fs = Ok fs' -> dirs_persist fs fs'.
Proof.
  unfold FS.copy_file. destruct (fs !! from) as [[data x|]|]; [|done..].
  case_bool_decide; [done|].
  destruct (negb (FS.is_directory fs (FS.parent_path to))); [done|].
  destruct (fs !! to) as [[]|] eqn:Hto; [|done|]; intros [= <-];
    apply dirs_persist_insert; by rewrite Hto.
Qed.

Lemma write_file_dirs_persist p data fs fs' :
  FS.write_file p data fs = Ok fs' -> dirs_persist fs fs'.
Proof.
  unfold FS.write_file.
  destruct (negb (FS.is_directory fs (FS.parent_path p))); [done|].
  destruct p as [|c p]; [done|].
  destruct (fs !! (c :: p)) as [[]|] eqn:Hp; [|done|]; intros [= <-];
    apply dirs_persist_insert; by rewrite Hp.
Qed.

(** A successful write leaves the file in place, in a directory. *)
Lemma write_file_written p data fs fs' :
  FS.write_file p data fs = Ok fs' ->
  FS.is_regular_file fs' p = true /\ FS.is_directory fs' (FS.parent_path p) = true.
Proof.
  unfold FS.write_file.
  destruct (FS.is_directory fs (FS.parent_path p)) eqn:Hparent; [|done].
  cbn [negb]. destruct p as [|c p]; [done|].
  assert (Hne : FS.parent_path (c :: p) <> c :: p).
  { unfold FS.parent_path. intros He.
    apply (f_equal (@List.length string)) in He.
    rewrite removelast_firstn_len, length_take in He.
    cbn [List.length] in He. lia. }
  assert (Hkeep : forall n, fs !! (c :: p) <> Some Directory ->
            FS.is_directory (<[c :: p := n]> fs) (FS.parent_path (c :: p)) = true).
  { intros n Hnd. destruct (FS.parent_path (c :: p)) as [|c' p'] eqn:Hpp; [done|].
    apply is_directory_lookup; [done|].
    apply is_directory_lookup in Hparent; [|done].
    by rewrite lookup_insert_ne. }
  destruct (fs !! (c :: p)) as [[]|] eqn:Hp; [|done|]; intros [= <-];
    (split; [unfold FS.is_regular_file; by rewrite lookup_insert_eq
            |by apply Hkeep]).
Qed.

Lemma attempt_dirs_persist op fs :
  (forall fs1 fs2, op fs1 = Ok fs2 -> dirs_persist fs1 fs2) ->
  dirs_persist fs (attempt op fs).2.
Proof.
  intros Hop. unfold attempt. destruct (op fs) eqn:H; cbn [snd].
  - by eapply Hop.
  - apply dirs_persist_refl.
Qed.

Lemma copy_entries_dirs_persist u_p staging entries fs :
  dirs_persist fs (copy_entries u_p staging entries fs).2.
Proof.
  revert fs. induction entries as [|entry rest IH]; intros fs;
    cbn [copy_entries]; [apply dirs_persist_refl|].
  unfold bind at 1, attempt at 1.
  destruct (FS.create_directories _ fs) as [fs1|] eqn:H1; cbn [snd];
    [|apply dirs_persist_refl].
  apply mkdirs_dirs_persist in H1.
  unfold bind at 1, attempt at 1.
  destruct (FS.copy_file _ _ fs1) as [fs2|] eqn:H2; cbn [snd]; [|done].
  apply copy_file_dirs_persist in H2.
  eapply dirs_persist_trans; [exact H1|].
  eapply dirs_persist_trans; [exact H2|]. apply IH.
Qed.

End FileSystemFacts.

(** ** The orchestrator *)

Section Orchestration.

Variable b : Build.
Variable fromJson : string -> QJsonDocument.
Variable ExtractArchive : list string -> list string -> gmap (list string) Node
                          -> bool * gmap (list string) Node.

Lemma set_fs_same s : set_fs (fs s) s = s.
Proof. by destruct s. Qed.

Lemma CreateBackup_unfold s :
  CreateBackup s =
  match FS.copy_file (app_directory s ++ ["citron.exe"])
          (backup_path s ++ ["citron.exe.bak"]) (fs s) with
  | Ok fs' => (true, set_fs fs' s)
  | Err _ => (false, s)
  end.
Proof.
  unfold CreateBackup, catch_all, bind, attempt, ret.
  destruct (FS.copy_file _ _ (fs s)); [done|]. by rewrite set_fs_same.
Qed.

Lemma RestoreBackup_unfold s :
  RestoreBackup s =
  if FS.exists_ (fs s) (backup_path s ++ ["citron.exe.bak"])
  then match FS.copy_file (backup_path s ++ ["citron.exe.bak"])
               (app_directory s ++ ["citron.exe"]) (fs s) with
       | Ok fs' => (true, set_fs fs' s)
       | Err _ => (false, s)
       end
  else (false, s).
Proof.
  unfold RestoreBackup, catch_all, bind, attempt, ret.
  destruct (FS.exists_ (fs s) _).
  - destruct (FS.copy_file _ _ (fs s)); [done|]. by rewrite set_fs_same.
  - by rewrite set_fs_same.
Qed.

(** The backup cannot be made when the installed executable is missing. *)
Lemma CreateBackup_source_missing s :
  fs s !! (app_directory s ++ ["citron.exe"]) = None ->
  (CreateBackup s).1 = false.
Proof.
  intros Hexe. rewrite CreateBackup_unfold. unfold FS.copy_file. by rewrite Hexe.
Qed.

(** C8. On Windows, when the backup cannot be made, an invocation of
    [DownloadAndInstallUpdate] does nothing destructive: no request is
    sent, no reply is awaited, no extraction is scheduled and the file
    system is untouched. Unless the invocation is turned away by the
    in-progress flag (C7), it reports [PermissionError] and clears the
    flag again. *)
Theorem backup_failure_aborts (s : State) (download_url : string) :
  platform b = Windows ->
  (CreateBackup s).1 = false ->
  let s' := DownloadAndInstallUpdate b download_url s in
  sent s' = sent s /\
  current_reply s' = current_reply s /\
  timers s' = timers s /\
  fs s' = fs s /\
  (update_in_progress s = false ->
   emitted s' = emitted s ++
     [UpdateCompleted PermissionError "Failed to create backup of citron.exe"] /\
   update_in_progress s' = false).
Proof.
  intros Hwin Hbackup. unfold DownloadAndInstallUpdate.
  destruct (update_in_progress s) eqn:Hflag; [done|]. rewrite Hwin.
  rewrite CreateBackup_unfold in Hbackup |- *.
  cbn [fs app_directory backup_path set_cancel_requested set_update_in_progress].
  destruct (FS.copy_file _ _ (fs s)); [done|]. by cbn.
Qed.

(** C10. On Linux, when [APPIMAGE] is unset or empty, [OnDownloadFinished]
    writes nothing, replaces nothing, schedules nothing, reports no
    [UpdateResult] and clears the in-progress flag, whatever state it is
    called in; when the download has completed without error and was not
    cancelled, what it reports is the error that the program does not run
    from an AppImage. *)
Theorem no_appimage_no_replacement (s : State) :
  platform b = Linux ->
  environ (ambient s) !! "APPIMAGE" = None \/
  environ (ambient s) !! "APPIMAGE" = Some EmptyString ->
  let s' := OnDownloadFinished b s in
  fs s' = fs s /\
  timers s' = timers s /\
  update_in_progress s' = false /\
  (exists news, emitted s' = emitted s ++ news /\
                Forall (fun sig => is_completion sig = false) news) /\
  (forall r, cancel_requested s = false ->
             current_reply s = Some r ->
             reply_error r = None ->
             emitted s' = emitted s ++
               [UpdateError "Not running from an AppImage. Manual update required."]).
Proof.
  intros Hlinux Henv. unfold OnDownloadFinished. rewrite Hlinux.
  assert (Hrep : forall data s1,
    ambient s1 = ambient s ->
    replace_appimage b data s1 =
      set_update_in_progress false
        (emit (UpdateError "Not running from an AppImage. Manual update required.")
              s1)).
  { intros data s1 Hamb. unfold replace_appimage, appimage_env. rewrite Hamb.
    by destruct Henv as [-> | ->]. }
  destruct (cancel_requested s) eqn:Hcancel.
  { cbn. split_and!; try done. exists []. by rewrite app_nil_r. }
  destruct (current_reply s) as [r|] eqn:Hreply.
  2:{ cbn. split_and!; try done. exists []. by rewrite app_nil_r. }
  destruct (reply_error r) as [e|] eqn:Herror.
  { cbn. split_and!; try done.
    - exists [UpdateError e]. split; [done|]. by repeat constructor.
    - intros r0 _ [= <-]. by rewrite Herror. }
  cbn [readAll]. rewrite Hrep by done. cbn. split_and!; try done.
  eexists. split; [done|]. by repeat constructor.
Qed.








(** *** Backup, staging and the end of an attempt *)

Lemma RestoreBackup_only_fs s :
  (RestoreBackup s).2 = set_fs (fs (RestoreBackup s).2) s.
Proof.
  rewrite RestoreBackup_unfold. destruct (FS.exists_ _ _); cbn [snd].
  - destruct (FS.copy_file _ _ (fs s)); cbn [snd]; [done|].
    by rewrite set_fs_same.
  - by rewrite set_fs_same.
Qed.

Lemma RestoreBackup_dirs_persist s :
  dirs_persist (fs s) (fs (RestoreBackup s).2).
Proof.
  rewrite RestoreBackup_unfold. destruct (FS.exists_ _ _); cbn [snd];
    [|apply dirs_persist_refl].
  destruct (FS.copy_file _ _ (fs s)) eqn:Hcopy; cbn [snd];
    [|apply dirs_persist_refl].
  by apply copy_file_dirs_persist in Hcopy.
Qed.

(** What restoring does when the backup is there: the installed
    executable becomes a copy of the backup. *)
Lemma RestoreBackup_restores s data x :
  fs s !! (backup_path s ++ ["citron.exe.bak"]) = Some (RegularFile data x) ->
  backup_path s ++ ["citron.exe.bak"] <> app_directory s ++ ["citron.exe"] ->
  FS.is_directory (fs s) (app_directory s) = true ->
  fs s !! (app_directory s ++ ["citron.exe"]) <> Some Directory ->
  RestoreBackup s =
    (true, set_fs (<[app_directory s ++ ["citron.exe"] := RegularFile data x]> (fs s)) s).
Proof.
  intros Hbak Hne Happ Hexe. rewrite RestoreBackup_unfold.
  unfold FS.exists_, FS.copy_file. rewrite Hbak.
  destruct (backup_path s ++ ["citron.exe.bak"]) as [|c p] eqn:Hpath.
  { by destruct (backup_path s). }
  rewrite bool_decide_eq_false_2 by done.
  unfold FS.parent_path. rewrite removelast_last, Happ. cbn [negb].
  by destruct (fs s !! (app_directory s ++ ["citron.exe"])) as [[]|].
Qed.

(** A missing backup makes restoring a no-op. *)
Lemma RestoreBackup_missing s :
  fs s !! (backup_path s ++ ["citron.exe.bak"]) = None ->
  RestoreBackup s = (false, s).
Proof.
  intros Hbak. rewrite RestoreBackup_unfold. unfold FS.exists_. rewrite Hbak.
  by destruct (backup_path s ++ ["citron.exe.bak"]) eqn:Hpath;
    [destruct (backup_path s)|].
Qed.

Lemma CreateUpdateHelperScript_only_fs staging s :
  (CreateUpdateHelperScript staging s).2 =
  set_fs (fs (CreateUpdateHelperScript staging s).2) s.
Proof.
  unfold CreateUpdateHelperScript. destruct (FS.write_file _ _ (fs s)); cbn [snd];
    [done|]. by rewrite set_fs_same.
Qed.

Lemma CreateUpdateHelperScript_dirs_persist staging s :
  dirs_persist (fs s) (fs (CreateUpdateHelperScript staging s).2).
Proof.
  unfold CreateUpdateHelperScript.
  destruct (FS.write_file _ _ (fs s)) eqn:Hw; cbn [snd];
    [|apply dirs_persist_refl].
  by apply write_file_dirs_persist in Hw.
Qed.

Lemma CreateUpdateHelperScript_written staging s :
  (CreateUpdateHelperScript staging s).1 = true ->
  FS.is_regular_file (fs (CreateUpdateHelperScript staging s).2)
    (staging ++ ["apply_update.bat"]) = true /\
  FS.is_directory (fs (CreateUpdateHelperScript staging s).2) staging = true.
Proof.
  unfold CreateUpdateHelperScript.
  destruct (FS.write_file _ _ (fs s)) eqn:Hw; cbn [fst snd]; [|done].
  intros _. apply write_file_written in Hw.
  unfold FS.parent_path in Hw. by rewrite removelast_last in Hw.
Qed.

Lemma remove_all_recreate (stays : list string -> bool) (staging : list string)
    (fs0 fs2 : gmap (list string) Node) :
  staging <> [] ->
  FS.create_directories staging fs0 = Ok fs2 ->
  exists fs4,
    FS.create_directories staging (FS.remove_all stays staging fs2).2 = Ok fs4 /\
    fs4 !! staging = Some Directory.
Proof.
  intros Hne Hfirst. unfold FS.create_directories in *.
  destruct (mkdirs_succeeds staging [] (FS.remove_all stays staging fs2).2)
    as (fs4 & Hok & Hlast).
  - intros k Hk data x Hfile. cbn [app] in Hfile.
    unfold FS.remove_all in Hfile. cbn [snd] in Hfile.
    apply map_lookup_filter_Some in Hfile as [Hfile _].
    pose proof (mkdirs_prefixes _ _ _ _ Hfirst k Hk) as Hdir.
    cbn [app] in Hdir. by rewrite Hdir in Hfile.
  - exists fs4. split; [done|]. by apply Hlast.
Qed.

Lemma InstallUpdate_only_fs u_p s :
  (InstallUpdate u_p s).2 = set_fs (fs (InstallUpdate u_p s).2) s.
Proof.
  unfold InstallUpdate. destruct (catch_all _ (fs s)) as [[] fs'].
  - by rewrite CreateUpdateHelperScript_only_fs at 1.
  - done.
Qed.

(** If the staging directory can be created at all, it is a directory
    when [InstallUpdate] returns, whatever it returns. *)
Lemma InstallUpdate_leaves_staging u_p s fs2 :
  FS.create_directories (app_directory s ++ ["update_staging"]) (fs s) = Ok fs2 ->
  fs (InstallUpdate u_p s).2 !! (app_directory s ++ ["update_staging"])
    = Some Directory.
Proof.
  intros Hfirst.
  assert (Hne : app_directory s ++ ["update_staging"] <> []).
  { by destruct (app_directory s). }
  destruct (remove_all_recreate (resists_removal (ambient s)) _ _ _ Hne Hfirst)
    as (fs4 & Hsecond & Hdir).
  unfold InstallUpdate, catch_all.
  unfold bind at 1, attempt at 1. rewrite Hfirst.
  unfold bind at 1, ret at 1.
  unfold bind at 1, attempt at 1. rewrite Hsecond.
  unfold bind at 1.
  destruct (FS.regular_files_under u_p fs4) as [entries|]; [|done].
  unfold bind at 1.
  pose proof (copy_entries_dirs_persist u_p (app_directory s ++ ["update_staging"])
                entries fs4 _ Hdir) as Hcopied.
  destruct (copy_entries _ _ entries fs4) as [[[]|] fs5]; cbn [snd] in Hcopied;
    [|done].
  unfold ret. by apply CreateUpdateHelperScript_dirs_persist.
Qed.

(** When [InstallUpdate] returns [true], the staging directory holds the
    helper script. *)
Lemma InstallUpdate_staged u_p s :
  (InstallUpdate u_p s).1 = true ->
  FS.is_regular_file (fs (InstallUpdate u_p s).2)
    (app_directory s ++ ["update_staging"; "apply_update.bat"]) = true /\
  FS.is_directory (fs (InstallUpdate u_p s).2)
    (app_directory s ++ ["update_staging"]) = true.
Proof.
  unfold InstallUpdate. destruct (catch_all _ (fs s)) as [[] fs']; [|done].
  intros H. apply CreateUpdateHelperScript_written in H.
  cbn [app_directory set_fs] in H |- *. by rewrite <- app_assoc in H.
Qed.




(** C5, as amended. The service has no [Failed] state; a failure shows as
    follows. When extraction fails, or when staging ([InstallUpdate])
    fails, the timer callback calls [RestoreBackup] (which, the backup
    being in place, makes the installed executable a copy of it), emits
    one [UpdateCompleted] carrying [ExtractionError], respectively
    [Failed], and clears the in-progress flag. When the download fails,
    [OnDownloadFinished] emits one [UpdateError] with the transport's
    error string and clears the flag; it does not restore the backup,
    schedules nothing and reports no [UpdateResult]. *)
Theorem failures_are_reported (s : State) (zip_path : list string) :
  let extract_path := temp_download_path s ++ ["extracted"] in
  (forall fs1,
      ExtractArchive zip_path extract_path (fs s) = (false, fs1) ->
      let s' := extract_and_install ExtractArchive zip_path s in
      update_in_progress s' = false /\
      emitted s' = emitted s ++
        [UpdateCompleted ExtractionError
           "Failed to extract update. Ensure you have permissions."] /\
      fs s' = fs (RestoreBackup (set_fs fs1 s)).2 /\
      (forall data x,
          fs1 !! (backup_path s ++ ["citron.exe.bak"]) = Some (RegularFile data x) ->
          backup_path s ++ ["citron.exe.bak"] <> app_directory s ++ ["citron.exe"] ->
          FS.is_directory fs1 (app_directory s) = true ->
          fs1 !! (app_directory s ++ ["citron.exe"]) <> Some Directory ->
          fs s' !! (app_directory s ++ ["citron.exe"]) = Some (RegularFile data x))) /\
  (forall fs1,
      ExtractArchive zip_path extract_path (fs s) = (true, fs1) ->
      (InstallUpdate extract_path (set_fs fs1 s)).1 = false ->
      let s' := extract_and_install ExtractArchive zip_path s in
      update_in_progress s' = false /\
      emitted s' = emitted s ++
        [UpdateCompleted Failed "Failed to stage update files."] /\
      fs s' = fs (RestoreBackup (InstallUpdate extract_path (set_fs fs1 s)).2).2) /\
  (forall r errorString,
      cancel_requested s = false ->
      current_reply s = Some r ->
      reply_error r = Some errorString ->
      let s' := OnDownloadFinished b s in
      update_in_progress s' = false /\
      emitted s' = emitted s ++ [UpdateError errorString] /\
      fs s' = fs s /\
      timers s' = timers s).
Proof.
  intros extract_path. split_and!.
  - intros fs1 Hextract s'.
    assert (Hs' : s' = set_update_in_progress false
                         (emit (UpdateCompleted ExtractionError
                                  "Failed to extract update. Ensure you have permissions.")
                               (RestoreBackup (set_fs fs1 s)).2)).
    { unfold s', extract_and_install. fold extract_path. rewrite Hextract.
      cbn [negb]. by destruct (RestoreBackup (set_fs fs1 s)). }
    rewrite Hs'. split_and!.
    + done.
    + rewrite RestoreBackup_only_fs. by cbn.
    + done.
    + intros data x Hbak Hne Happ Hexe.
      rewrite (RestoreBackup_restores (set_fs fs1 s) data x) by done.
      cbn. apply lookup_insert_eq.
  - intros fs1 Hextract Hinstall s'. unfold s', extract_and_install.
    fold extract_path. rewrite Hextract. cbn [negb].
    cbn [temp_download_path set_fs]. fold extract_path.
    pose proof (InstallUpdate_only_fs extract_path (set_fs fs1 s)) as Hinst.
    destruct (InstallUpdate extract_path (set_fs fs1 s)) as [installed s1]
      eqn:Hi.
    cbn [fst snd] in Hinstall, Hinst |- *. subst installed. cbn [negb].
    pose proof (RestoreBackup_only_fs s1) as Honly.
    destruct (RestoreBackup s1) as [restored s2].
    cbn [snd] in Honly |- *. rewrite Honly, Hinst. by cbn.
  - intros r errorString Hcancel Hreply Herror s'.
    unfold s', OnDownloadFinished. rewrite Hcancel, Hreply, Herror. by cbn.
Qed.

(** C9, as amended. The service does not purge the staging directory at
    the end of an attempt. Once the archive has been extracted and the
    staging directory can be created, the staging directory exists when
    the attempt ends, whether staging succeeded or failed; when the
    attempt is reported as [Success] it holds the helper script, to which
    removing the directory is left. *)
Theorem staging_outlives_the_attempt (s : State) (zip_path : list string) :
  let extract_path := temp_download_path s ++ ["extracted"] in
  let staging := app_directory s ++ ["update_staging"] in
  let s' := extract_and_install ExtractArchive zip_path s in
  (forall fs1 fs2,
      ExtractArchive zip_path extract_path (fs s) = (true, fs1) ->
      FS.create_directories staging fs1 = Ok fs2 ->
      FS.is_directory (fs s') staging = true) /\
  (forall message,
      emitted s' = emitted s ++ [UpdateCompleted Success message] ->
      FS.is_directory (fs s') staging = true /\
      FS.is_regular_file (fs s') (staging ++ ["apply_update.bat"]) = true).
Proof.
  intros extract_path staging s'.
  assert (Hne : staging <> []) by (unfold staging; by destruct (app_directory s)).
  split_and!.
  - intros fs1 fs2 Hextract Hcreate.
    apply is_directory_lookup; [done|].
    unfold s', extract_and_install. fold extract_path. rewrite Hextract.
    cbn [negb temp_download_path set_fs]. fold extract_path.
    pose proof (InstallUpdate_leaves_staging extract_path (set_fs fs1 s) fs2
                  Hcreate) as Hleft.
    cbn [app_directory set_fs] in Hleft. fold staging in Hleft.
    pose proof (InstallUpdate_only_fs extract_path (set_fs fs1 s)) as Hinst.
    destruct (InstallUpdate extract_path (set_fs fs1 s)) as [installed s1].
    cbn [snd] in Hleft, Hinst.
    destruct installed; cbn [negb]; [done|].
    pose proof (RestoreBackup_dirs_persist s1 _ Hleft) as Hrestored.
    by destruct (RestoreBackup s1) as [restored s2].
  - intros message Hsuccess. revert Hsuccess.
    unfold s', extract_and_install. fold extract_path.
    destruct (ExtractArchive zip_path extract_path (fs s)) as [[] fs1];
      cbn [negb].
    2:{ pose proof (RestoreBackup_only_fs (set_fs fs1 s)) as Honly.
        destruct (RestoreBackup (set_fs fs1 s)) as [restored s1].
        cbn [snd] in Honly. rewrite Honly. cbn. intros H.
        by apply app_inv_head in H. }
    cbn [temp_download_path set_fs]. fold extract_path.
    pose proof (InstallUpdate_only_fs extract_path (set_fs fs1 s)) as Hinst.
    pose proof (InstallUpdate_staged extract_path (set_fs fs1 s)) as Hstaged.
    destruct (InstallUpdate extract_path (set_fs fs1 s)) as [[] s1];
      cbn [fst snd negb] in Hinst, Hstaged |- *.
    + intros _. destruct (Hstaged eq_refl) as [Hscript Hdir].
      cbn [app_directory set_fs] in Hscript, Hdir. fold staging in Hdir.
      unfold staging. rewrite <- app_assoc. by cbn.
    + pose proof (RestoreBackup_only_fs s1) as Honly.
      destruct (RestoreBackup s1) as [restored s2].
      cbn [snd] in Honly. rewrite Honly, Hinst. cbn. intros H.
      by apply app_inv_head in H.
Qed.

End Orchestration.

(** * The properties on sample inputs *)

Import Sample.

(** The newest record of the feed has a compatible asset but no commit
    hash in its title: the service passes over it and chooses the next
    record. *)
Lemma first_compatible_record_passed_over :
  let feed := DocArray [untitled; titled] in
  let s' := ParseUpdateResponse linux_build (decodes_to feed) "feed" "Nightly"
              (idle installed) in
  has_compatible_asset linux_build untitled = true /\
  s' = chosen linux_build "Nightly" titled (idle installed) /\
  s' <> chosen linux_build "Nightly" untitled (idle installed) /\
  version (current_update_info s') = "0f9e8d7".
Proof.
  cbv zeta. split_and!; [reflexivity|reflexivity| |reflexivity].
  intros H. apply (f_equal (fun s => version (current_update_info s))) in H.
  vm_compute in H. discriminate H.
Qed.

Lemma ParseUpdateResponse_first_eligible_witness :
  let feed := DocArray [untitled; no_assets; titled; oldest] in
  ParseUpdateResponse linux_build (decodes_to feed) "feed" "Nightly" (idle installed)
  = chosen linux_build "Nightly" titled (idle installed).
Proof.
  cbv zeta.
  apply (ParseUpdateResponse_first_eligible linux_build
           (decodes_to (DocArray [untitled; no_assets; titled; oldest]))
           "feed" "Nightly" (idle installed) [untitled; no_assets] titled [oldest]).
  - reflexivity.
  - repeat constructor.
  - reflexivity.
  - reflexivity.
Defined.

Lemma select_assets_priority_witness :
  select_assets windows_build [asset "app-v3.zip"; asset "app.zip"] =
  variant_matched_subset windows_build [asset "app-v3.zip"; asset "app.zip"] /\
  select_assets windows_build [asset "app-v3.zip"; asset "app.zip"] =
  [asset_option (asset "app-v3.zip")].
Proof.
  split.
  - apply (proj2 (select_assets_priority windows_build
                    [asset "app-v3.zip"; asset "app.zip"])
                 (asset "app-v3.zip")).
    + left. reflexivity.
    + reflexivity.
    + reflexivity.
  - reflexivity.
Defined.


(** A payload that decodes to a JSON object: the whole check operation
    ends without any signal, so without any report of an error. *)
Lemma malformed_feed_is_dropped_silently :
  let s' := run linux_build (decodes_to (DocObject [])) failing_extractor
              [Call_CheckForUpdates "Nightly"; Bytes_arrive "{}";
               Reply_finished None]
              (idle installed) in
  isArray (decodes_to (DocObject []) "{}") = false /\
  emitted s' = [] /\
  ~ exists sig, In sig (emitted s') /\ is_error_report sig = true.
Proof.
  cbv zeta. split_and!; [reflexivity|reflexivity|].
  intros (sig & Hin & _). vm_compute in Hin. exact Hin.
Qed.

Lemma ParseUpdateResponse_not_an_array_witness :
  isArray (decodes_to (DocObject []) "{}") = false /\
  ParseUpdateResponse linux_build (decodes_to (DocObject [])) "{}" "Nightly"
    (idle installed) = idle installed.
Proof.
  split; [reflexivity|].
  apply (ParseUpdateResponse_not_an_array linux_build (decodes_to (DocObject []))
           "{}" "Nightly" (idle installed)).
  reflexivity.
Defined.

(** A download that fails: the caller gets an [UpdateError], no
    [UpdateResult], and the attempt is over. *)
Lemma download_failure_reports_no_result :
  let s' := run windows_build (decodes_to DocNull) unpacking_extractor
              [Call_DownloadAndInstallUpdate "https://dl.example/citron.zip";
               Reply_finished (Some "Connection refused")]
              (idle installed) in
  emitted s' = [UpdateError "Connection refused"] /\
  update_in_progress s' = false /\
  ~ exists sig, In sig (emitted s') /\ is_completion sig = true.
Proof.
  cbv zeta. split_and!; [reflexivity|reflexivity|].
  intros (sig & Hin & Hsig). vm_compute in Hin.
  destruct Hin as [<-|[]]. discriminate Hsig.
Qed.

Lemma failures_are_reported_witness :
  let s := set_update_in_progress true (idle installed) in
  let s' := extract_and_install failing_extractor
              ["C:"; "Temp"; "citron_updater"; "citron_update.zip"] s in
  update_in_progress s' = false /\
  emitted s' = [UpdateCompleted ExtractionError
                  "Failed to extract update. Ensure you have permissions."] /\
  fs s' = fs (RestoreBackup s).2.
Proof.
  cbv zeta.
  destruct (proj1 (failures_are_reported windows_build failing_extractor
                     (set_update_in_progress true (idle installed))
                     ["C:"; "Temp"; "citron_updater"; "citron_update.zip"])
                  installed eq_refl)
    as (Hflag & Hemitted & Hfs & _).
  split_and!; [exact Hflag|exact Hemitted|exact Hfs].
Defined.





Lemma backup_failure_aborts_witness :
  let s' := DownloadAndInstallUpdate windows_build "https://dl.example/citron.zip"
              (idle broken) in
  (CreateBackup (idle broken)).1 = false /\
  emitted s' =
    [UpdateCompleted PermissionError "Failed to create backup of citron.exe"] /\
  sent s' = [] /\
  fs s' = broken.
Proof.
  cbv zeta.
  destruct (backup_failure_aborts windows_build (idle broken)
              "https://dl.example/citron.zip" eq_refl eq_refl)
    as (Hsent & _ & _ & Hfs & Hreport).
  destruct (Hreport eq_refl) as [Hemitted _].
  split_and!; [reflexivity|exact Hemitted|exact Hsent|exact Hfs].
Defined.

(** An attempt that succeeds and an attempt that fails while staging: the
    staging directory is there at the end of each. *)
Lemma staging_directory_remains :
  let download :=
    [Call_DownloadAndInstallUpdate "https://dl.example/citron.zip";
     Bytes_arrive "archive"; Reply_finished None; Timer_fires] in
  let succeeded :=
    run windows_build (decodes_to DocNull) unpacking_extractor download
      (idle installed) in
  let failed :=
    run windows_build (decodes_to DocNull) awkward_extractor download
      (idle installed) in
  (emitted succeeded = [UpdateCompleted Success "Update staged successfully."] /\
   update_in_progress succeeded = false /\
   FS.exists_ (fs succeeded) staging_directory = true) /\
  (emitted failed = [UpdateCompleted Failed "Failed to stage update files."] /\
   update_in_progress failed = false /\
   FS.exists_ (fs failed) staging_directory = true).
Proof.
  cbv zeta. split_and!; reflexivity.
Qed.

Lemma staging_outlives_the_attempt_witness :
  let s := set_update_in_progress true (idle installed) in
  let s' := extract_and_install unpacking_extractor
              ["C:"; "Temp"; "citron_updater"; "citron_update.zip"] s in
  emitted s' = emitted s ++ [UpdateCompleted Success "Update staged successfully."] /\
  FS.is_directory (fs s') staging_directory = true /\
  FS.is_regular_file (fs s') (staging_directory ++ ["apply_update.bat"]) = true.
Proof.
  cbv zeta.
  assert (Hsuccess :
    emitted (extract_and_install unpacking_extractor
               ["C:"; "Temp"; "citron_updater"; "citron_update.zip"]
               (set_update_in_progress true (idle installed))) =
    emitted (set_update_in_progress true (idle installed)) ++
      [UpdateCompleted Success "Update staged successfully."]).
  { reflexivity. }
  split; [exact Hsuccess|].
  exact (proj2 (staging_outlives_the_attempt unpacking_extractor
                  (set_update_in_progress true (idle installed))
                  ["C:"; "Temp"; "citron_updater"; "citron_update.zip"])
               "Update staged successfully." Hsuccess).
Defined.

Lemma no_appimage_no_replacement_witness :
  let s := downloading (download_reply true None "new AppImage") in
  let s' := OnDownloadFinished linux_build s in
  environ (ambient s) !! "APPIMAGE" = None /\
  fs s' = fs s /\
  update_in_progress s' = false /\
  emitted s' =
    [UpdateError "Not running from an AppImage. Manual update required."].
Proof.
  cbv zeta.
  destruct (no_appimage_no_replacement linux_build
              (downloading (download_reply true None "new AppImage"))
              eq_refl (or_introl eq_refl))
    as (Hfs & _ & Hflag & _ & Hreport).
  split_and!; [reflexivity|exact Hfs|exact Hflag|].
  exact (Hreport (download_reply true None "new AppImage")
                 eq_refl eq_refl eq_refl).
Defined.


(** * Further properties of the code *)

(** ** [ExtractCommitHash] *)

Lemma append_cons (x : ascii) (a b : string) :
  (String x a ++ b)%string = String x (a ++ b).
Proof. reflexivity. Qed.

Lemma append_nil_l (b : string) : (EmptyString ++ b)%string = b.
Proof. reflexivity. Qed.

Lemma append_assoc_s (a b c : string) :
  ((a ++ b) ++ c)%string = (a ++ b ++ c)%string.
Proof.
  induction a as [|x a IH]; [done|]. rewrite !append_cons. by f_equal.
Qed.

Lemma append_empty_r (a : string) : (a ++ EmptyString)%string = a.
Proof. induction a as [|x a IH]; [done|]. rewrite append_cons. by f_equal. Qed.

Lemma length_append_s (a b : string) :
  String.length (a ++ b) = String.length a + String.length b.
Proof.
  induction a as [|x a IH]; [done|]. rewrite append_cons. cbn. by f_equal.
Qed.

Lemma hex_run_all_hex n s : all_hex (Str.hex_run n s) = true.
Proof.
  revert s. induction n as [|n IH]; intros [|c s]; cbn; try done.
  destruct (Str.is_hex c) eqn:Hc; cbn; [|done]. by rewrite Hc, IH.
Qed.

Lemma hex_run_is_prefix n s :
  exists suf, s = (Str.hex_run n s ++ suf)%string.
Proof.
  revert s. induction n as [|n IH]; intros [|c s]; cbn [Str.hex_run];
    try by eexists.
  destruct (Str.is_hex c); [|by eexists].
  destruct (IH s) as [suf Hsuf]. exists suf. rewrite append_cons.
  by rewrite <- Hsuf.
Qed.

(** The run read at the head of [h ++ suf] covers [h] when [h] is made of
    hexadecimal digits and is not longer than the bound. *)
Lemma hex_run_covers n h suf :
  all_hex h = true -> String.length h <= n ->
  exists more, Str.hex_run n (h ++ suf) = (h ++ more)%string.
Proof.
  revert h. induction n as [|n IH]; intros [|c h] Hhex Hlen;
    cbn [String.length all_hex] in *; rewrite ?append_nil_l, ?append_cons;
    try (by eexists); try lia.
  apply andb_true_iff in Hhex as [Hc Hh]. cbn [Str.hex_run]. rewrite Hc.
  destruct (IH h Hh ltac:(lia)) as [more Hmore]. exists more.
  by rewrite Hmore, append_cons.
Qed.

Lemma hex_run_fixed n h :
  all_hex h = true -> String.length h <= n -> Str.hex_run n h = h.
Proof.
  revert h. induction n as [|n IH]; intros [|c h] Hhex Hlen; cbn in *;
    try done; try lia.
  apply andb_true_iff in Hhex as [Hc Hh]. rewrite Hc.
  by rewrite IH by (done || lia).
Qed.

Lemma ExtractCommitHash_all_hex s : all_hex (ExtractCommitHash s) = true.
Proof.
  induction s as [|c rest IH]; [done|]. cbn [ExtractCommitHash].
  destruct (7 <=? _); [apply hex_run_all_hex|exact IH].
Qed.

Lemma ExtractCommitHash_length s :
  ExtractCommitHash s = EmptyString \/ 7 <= String.length (ExtractCommitHash s) <= 40.
Proof.
  induction s as [|c rest IH]; [by left|]. cbn [ExtractCommitHash].
  destruct (7 <=? String.length (Str.hex_run 40 (String c rest))) eqn:Hlen;
    [|exact IH].
  right. apply Nat.leb_le in Hlen. split; [done|]. apply hex_run_length.
Qed.

Lemma ExtractCommitHash_inside s :
  exists pre suf, s = (pre ++ ExtractCommitHash s ++ suf)%string.
Proof.
  induction s as [|c rest IH]; [by exists EmptyString, EmptyString|].
  cbn [ExtractCommitHash].
  destruct (7 <=? String.length (Str.hex_run 40 (String c rest))).
  - destruct (hex_run_is_prefix 40 (String c rest)) as [suf Hsuf].
    by exists EmptyString, suf.
  - destruct IH as (pre & suf & Hrest). exists (String c pre), suf.
    rewrite append_cons. by rewrite <- Hrest.
Qed.

Lemma ExtractCommitHash_finds pre h suf :
  String.length h = 7 -> all_hex h = true ->
  ExtractCommitHash (pre ++ h ++ suf) <> EmptyString.
Proof.
  intros Hlen Hhex.
  assert (Hhead : forall tail,
    (7 <=? String.length (Str.hex_run 40 (h ++ tail))) = true).
  { intros tail. destruct (hex_run_covers 40 h tail Hhex ltac:(lia)) as [more ->].
    apply Nat.leb_le. rewrite length_append_s. lia. }
  induction pre as [|c pre IH].
  - rewrite append_nil_l. destruct h as [|c h]; [done|].
    specialize (Hhead suf). rewrite append_cons in Hhead |- *.
    cbn [ExtractCommitHash]. rewrite Hhead.
    intros Hempty. rewrite Hempty in Hhead. done.
  - rewrite append_cons. cbn [ExtractCommitHash].
    destruct (7 <=? String.length (Str.hex_run 40 (String c (pre ++ h ++ suf))))
      eqn:Hhere; [|exact IH].
    intros Hempty. rewrite Hempty in Hhere. done.
Qed.

(** Splitting off the first [n] characters. *)
Lemma split_at_length n s :
  n <= String.length s ->
  exists a b, s = (a ++ b)%string /\ String.length a = n.
Proof.
  revert s. induction n as [|n IH]; intros s Hn.
  - by exists EmptyString, s.
  - destruct s as [|c s]; cbn in Hn; [lia|].
    destruct (IH s ltac:(lia)) as (a & b0 & -> & Ha).
    exists (String c a), b0. rewrite append_cons. cbn. by rewrite Ha.
Qed.

Lemma all_hex_append a b :
  all_hex (a ++ b) = all_hex a && all_hex b.
Proof.
  induction a as [|c a IH]; [done|]. rewrite append_cons. cbn.
  by rewrite IH, andb_assoc.
Qed.

(** X1. What [ExtractCommitHash] returns is a piece of its argument, and
    it is either empty or made of 7 to 40 hexadecimal digits. *)
Theorem ExtractCommitHash_sound (version_string : string) :
  let h := ExtractCommitHash version_string in
  (exists pre suf, version_string = (pre ++ h ++ suf)%string) /\
  all_hex h = true /\
  (h = EmptyString \/ 7 <= String.length h <= 40).
Proof.
  cbv zeta. split_and!.
  - apply ExtractCommitHash_inside.
  - apply ExtractCommitHash_all_hex.
  - apply ExtractCommitHash_length.
Qed.

(** X2. [ExtractCommitHash] returns the empty string - and the release
    record is then skipped - exactly when its argument has no seven
    hexadecimal digits in a row. *)
Theorem ExtractCommitHash_empty_iff (version_string : string) :
  ExtractCommitHash version_string = EmptyString <-> ~ has_hex_run version_string.
Proof.
  split.
  - intros Hempty (pre & h & suf & -> & Hlen & Hhex).
    by apply (ExtractCommitHash_finds pre h suf Hlen Hhex).
  - intros Hnone.
    destruct (ExtractCommitHash_length version_string) as [Hempty|[Hlow _]];
      [done|].
    exfalso. apply Hnone.
    destruct (ExtractCommitHash_inside version_string) as (pre & suf & Hin).
    destruct (split_at_length 7 _ Hlow) as (h & more & Hsplit & Hlen).
    pose proof (ExtractCommitHash_all_hex version_string) as Hhex.
    rewrite Hsplit, all_hex_append in Hhex.
    apply andb_true_iff in Hhex as [Hh _].
    exists pre, h, (more ++ suf)%string. split_and!; [|done|done].
    rewrite Hin at 1. rewrite Hsplit. by rewrite append_assoc_s.
Qed.

(** X3. A string of 7 to 40 hexadecimal digits is its own commit hash, so
    extracting twice is the same as extracting once. *)
Theorem ExtractCommitHash_idempotent (version_string : string) :
  (all_hex version_string = true ->
   7 <= String.length version_string <= 40 ->
   ExtractCommitHash version_string = version_string) /\
  ExtractCommitHash (ExtractCommitHash version_string)
  = ExtractCommitHash version_string.
Proof.
  assert (Hfixed : forall h, all_hex h = true -> 7 <= String.length h <= 40 ->
                             ExtractCommitHash h = h).
  { intros h Hhex [Hlow Hhigh]. destruct h as [|c h]; [cbn in Hlow; lia|].
    cbn [ExtractCommitHash]. rewrite hex_run_fixed by done.
    by apply Nat.leb_le in Hlow as ->. }
  split; [apply Hfixed|].
  destruct (ExtractCommitHash_length version_string) as [->|Hlen]; [done|].
  apply Hfixed; [apply ExtractCommitHash_all_hex|done].
Qed.

(** ** Asset selection and the announced release *)

Section MoreParsing.

Variable b : Build.
Variable fromJson : string -> QJsonDocument.

Lemma variant_matched_within_os_valid assets :
  sublist (variant_matched_subset b assets) (os_valid_subset b assets).
Proof.
  unfold variant_matched_subset, os_valid_subset.
  induction (map asset_option assets) as [|opt opts IH]; [constructor|].
  cbn [List.filter].
  destruct (os_accepts b (name opt)); cbn [andb]; [|done].
  destruct (variant_accepts b (name opt)); by constructor.
Qed.

Lemma os_valid_within_assets assets :
  sublist (os_valid_subset b assets) (map asset_option assets).
Proof.
  unfold os_valid_subset.
  induction (map asset_option assets) as [|opt opts IH]; [constructor|].
  cbn [List.filter]. destruct (os_accepts b (name opt)); by constructor.
Qed.

Lemma select_assets_cases assets :
  select_assets b assets = variant_matched_subset b assets \/
  select_assets b assets = os_valid_subset b assets.
Proof.
  unfold select_assets. rewrite scan_assets_subsets.
  destruct (variant_matched_subset b assets); [by right|by left].
Qed.

Lemma select_assets_accepted assets opt :
  In opt (select_assets b assets) -> os_accepts b (name opt) = true.
Proof.
  destruct (select_assets_cases assets) as [-> | ->];
    unfold variant_matched_subset, os_valid_subset;
    intros [_ H]%filter_In; [by apply andb_true_iff in H as [H _]|done].
Qed.

(** X4. The options selected are options of the listed assets, in the
    order of the list, and every one of them passes the platform filter,
    whatever the variant filter says: on Windows a [.zip] that is not a PGO
    build, on Linux an [.AppImage]. *)
Theorem select_assets_within_platform (assets : list QJsonValue) :
  sublist (select_assets b assets) (map asset_option assets) /\
  Forall (fun opt => os_accepts b (name opt) = true) (select_assets b assets) /\
  (platform b = Windows ->
   Forall (fun opt => Str.endsWith_ci ".zip" (name opt) = true /\
                      Str.contains_ci "PGO" (name opt) = false)
          (select_assets b assets)) /\
  (platform b = Linux ->
   Forall (fun opt => Str.endsWith_ci ".AppImage" (name opt) = true)
          (select_assets b assets)).
Proof.
  assert (Hall : Forall (fun opt => os_accepts b (name opt) = true)
                        (select_assets b assets)).
  { apply List.Forall_forall. intros opt. apply select_assets_accepted. }
  split_and!.
  - destruct (select_assets_cases assets) as [-> | ->].
    + etrans; [apply variant_matched_within_os_valid|apply os_valid_within_assets].
    + apply os_valid_within_assets.
  - exact Hall.
  - intros Hwin. eapply Forall_impl; [exact Hall|]. intros opt. cbn.
    unfold os_accepts. rewrite Hwin. intros [H1 H2]%andb_true_iff.
    split; [done|]. by apply negb_true_iff.
  - intros Hlinux. eapply Forall_impl; [exact Hall|]. intros opt. cbn.
    unfold os_accepts. by rewrite Hlinux.
Qed.

Lemma ParseUpdateResponse_outcome_version response channel s :
  ParseUpdateResponse b fromJson response channel s = s \/
  exists rel_val,
    has_version channel rel_val = true /\
    has_compatible_asset b rel_val = true /\
    ParseUpdateResponse b fromJson response channel s = chosen b channel rel_val s.
Proof.
  unfold ParseUpdateResponse.
  destruct (isArray (fromJson response)); cbn [negb]; [|by left].
  destruct (scan_releases_outcome b (array (fromJson response)) channel s)
    as [H|(r & _ & Hv & Hc & H)]; [by left|].
  right. by exists r.
Qed.

Lemma ParseUpdateResponse_keeps_operation_state response channel s :
  same_operation_state s (ParseUpdateResponse b fromJson response channel s).
Proof.
  destruct (ParseUpdateResponse_outcome_version response channel s)
    as [-> | (rel_val & _ & _ & ->)]; done.
Qed.

(** X5. [ParseUpdateResponse] either leaves the service as it was or
    announces exactly one release, which it also stores; the announced
    release has a non-empty version and a non-empty list of download
    options, all accepted by the platform filter. It never touches the
    in-progress and cancel flags, the reply, the file system, the requests
    or the timers. *)
Theorem announced_release_is_usable (response channel : string) (s : State) :
  let s' := ParseUpdateResponse b fromJson response channel s in
  same_operation_state s s' /\
  (s' = s \/
   exists info,
     emitted s' = emitted s ++ [UpdateCheckCompleted (is_newer_version info) info] /\
     current_update_info s' = info /\
     version info <> EmptyString /\
     download_options info <> [] /\
     Forall (fun opt => os_accepts b (name opt) = true) (download_options info)).
Proof.
  cbv zeta. split; [apply ParseUpdateResponse_keeps_operation_state|].
  destruct (ParseUpdateResponse_outcome_version response channel s)
    as [-> | (rel_val & Hv & Hc & ->)]; [by left|].
  right.
  exists (release_info b channel rel_val s). split_and!; try done.
  - cbn [version release_info]. unfold has_version in Hv.
    intros Hempty. by rewrite Hempty in Hv.
  - cbn [download_options release_info]. unfold has_compatible_asset in Hc.
    intros Hempty. by rewrite Hempty in Hc.
  - cbn [download_options release_info]. apply List.Forall_forall.
    intros opt. apply select_assets_accepted.
Qed.

(** X6. In a build for a platform that is neither Windows nor Linux no
    asset is ever selected, so no feed makes [ParseUpdateResponse] announce
    a release: it leaves the service as it was. *)
Theorem no_release_on_other_platforms
    (response channel : string) (s : State) (assets : list QJsonValue) :
  platform b = OtherOS ->
  select_assets b assets = [] /\
  ParseUpdateResponse b fromJson response channel s = s.
Proof.
  intros Hother.
  assert (Hnone : forall l, select_assets b l = []).
  { intros l. destruct (select_assets b l) as [|opt opts] eqn:Hsel; [done|].
    assert (Hin : In opt (select_assets b l)) by (rewrite Hsel; by left).
    apply select_assets_accepted in Hin. unfold os_accepts in Hin.
    by rewrite Hother in Hin. }
  split; [apply Hnone|].
  apply ParseUpdateResponse_none_eligible.
  apply List.Forall_forall. intros r _. unfold has_compatible_asset.
  rewrite Hnone. cbn. apply andb_false_r.
Qed.

Lemma toLower_empty c : Str.empty (Str.toLower c) = Str.empty c.
Proof. by destruct c. Qed.

Lemma scan_releases_channel rels c1 c2 s :
  Str.toLower c1 = Str.toLower c2 ->
  scan_releases b rels c1 s = scan_releases b rels c2 s.
Proof.
  intros Hlower.
  assert (Hempty : Str.empty c1 = Str.empty c2).
  { by rewrite <- (toLower_empty c1), <- (toLower_empty c2), Hlower. }
  assert (Hcurrent : GetCurrentVersion b c1 s = GetCurrentVersion b c2 s).
  { unfold GetCurrentVersion. rewrite Hempty.
    destruct (Str.empty c2); [done|]. by rewrite Hlower. }
  induction rels as [|rel_val rest IH]; [done|].
  cbn [scan_releases]. unfold release_info, latest_v.
  by rewrite Hlower, Hcurrent, IH.
Qed.

(** X7. The channel is read without regard to case: two channel names
    that agree once lowered give the same result for every feed. *)
Theorem ParseUpdateResponse_channel_case
    (response c1 c2 : string) (s : State) :
  Str.toLower c1 = Str.toLower c2 ->
  ParseUpdateResponse b fromJson response c1 s
  = ParseUpdateResponse b fromJson response c2 s.
Proof.
  intros Hlower. unfold ParseUpdateResponse.
  destruct (isArray (fromJson response)); cbn [negb]; [|done].
  by apply scan_releases_channel.
Qed.

(** X8. On every channel but the stable one, the version of an announced
    release is the commit hash found in the title of its record: 7 to 40
    hexadecimal digits. *)
Theorem nightly_version_is_a_commit_hash
    (response channel : string) (s : State) (has_update : bool) (info : UpdateInfo) :
  Str.toLower channel <> "stable" ->
  In (UpdateCheckCompleted has_update info)
     (emitted (ParseUpdateResponse b fromJson response channel s)) ->
  ~ In (UpdateCheckCompleted has_update info) (emitted s) ->
  all_hex (version info) = true /\ 7 <= String.length (version info) <= 40.
Proof.
  intros Hchannel Hin Hnew.
  destruct (ParseUpdateResponse_outcome_version response channel s)
    as [H|(rel_val & Hv & _ & H)]; rewrite H in Hin; [done|].
  unfold chosen, emit in Hin. cbn in Hin.
  apply in_app_or in Hin as [Hin|[Hin|[]]]; [done|].
  injection Hin as _ <-. cbn [version release_info].
  unfold has_version, latest_v in Hv |- *.
  destruct (String.eqb_spec (Str.toLower channel) "stable") as [Heq|_]; [done|].
  split; [apply ExtractCommitHash_all_hex|].
  destruct (ExtractCommitHash_length (toString (value (toObject rel_val) "name")))
    as [Hempty|Hlen]; [|done].
  by rewrite Hempty in Hv.
Qed.

End MoreParsing.

(** ** Checks, downloads and cancellation *)

Section MoreOrchestration.

Variable b : Build.
Variable fromJson : string -> QJsonDocument.
Variable ExtractArchive : list string -> list string -> gmap (list string) Node
                          -> bool * gmap (list string) Node.

(** X9. A check does not set the in-progress flag: [CheckForUpdates],
    when it is not refused, sends one request with the updater's
    user agent - to the nightly feed exactly when the channel lowers to
    [nightly] - and leaves the flag clear, so that a [CancelUpdate] that
    follows finds nothing to cancel and leaves the reply running. *)
Theorem check_is_not_cancellable (override_channel : string) (s : State) :
  update_in_progress s = false ->
  let channel :=
    if Str.empty override_channel then settings_channel s else override_channel in
  let s1 := CheckForUpdates override_channel s in
  sent s1 = sent s ++
    [{| request_url := if String.eqb (Str.toLower channel) "nightly"
                       then NIGHTLY_UPDATE_URL else STABLE_UPDATE_URL;
        user_agent := Some "Citron-Updater/1.0" |}] /\
  (exists r, current_reply s1 = Some r /\ reply_finished r = false /\
             reply_slot r = CheckFinished channel) /\
  update_in_progress s1 = false /\
  emitted s1 = emitted s /\
  fs s1 = fs s /\
  CancelUpdate b fromJson s1 = s1.
Proof.
  intros Hflag channel s1. unfold s1, CheckForUpdates. rewrite Hflag.
  fold channel. split_and!.
  - done.
  - eexists. split; [reflexivity|]. by split.
  - done.
  - done.
  - done.
  - unfold CancelUpdate. cbn. by rewrite Hflag.
Qed.

Lemma OnCheckFinished_shape channel s :
  current_reply (OnCheckFinished b fromJson channel s) = None /\
  update_in_progress (OnCheckFinished b fromJson channel s) = update_in_progress s /\
  fs (OnCheckFinished b fromJson channel s) = fs s /\
  sent (OnCheckFinished b fromJson channel s) = sent s /\
  timers (OnCheckFinished b fromJson channel s) = timers s.
Proof.
  unfold OnCheckFinished.
  destruct (current_reply s) as [r|] eqn:Hreply; [|done].
  destruct (reply_error r) as [e|]; [done|]. cbn [readAll].
  match goal with
  | |- context [ParseUpdateResponse b fromJson ?d ?c ?st] =>
      destruct (ParseUpdateResponse_keeps_operation_state b fromJson d c st)
        as (Hflag & _ & _ & Hfs & Hsent & Htimers)
  end.
  cbn in *. split_and!; [done|exact Hflag|exact Hfs|exact Hsent|exact Htimers].
Qed.

(** X10. The slot of a check consumes the current reply: afterwards the
    service points to no reply, and a second run of the slot - for this
    or for any other check - does nothing. The in-progress flag, the file
    system, the requests and the timers are not touched. *)
Theorem check_reply_is_consumed (channel channel' : string) (s : State) :
  let s1 := OnCheckFinished b fromJson channel s in
  current_reply s1 = None /\
  OnCheckFinished b fromJson channel' s1 = s1 /\
  update_in_progress s1 = update_in_progress s /\
  fs s1 = fs s /\
  sent s1 = sent s /\
  timers s1 = timers s.
Proof.
  cbv zeta.
  destruct (OnCheckFinished_shape channel s)
    as (Hnone & Hflag & Hfs & Hsent & Htimers).
  split_and!; try done.
  unfold OnCheckFinished at 1. by rewrite Hnone.
Qed.

Lemma OnCheckFinished_signals channel s :
  exists news,
    emitted (OnCheckFinished b fromJson channel s) = emitted s ++ news /\
    Forall (fun sig => is_completion sig = false) news.
Proof.
  unfold OnCheckFinished. destruct (current_reply s) as [r|].
  2:{ exists []. by rewrite app_nil_r. }
  destruct (reply_error r) as [e|].
  { exists [UpdateError e]. split; [done|]. by repeat constructor. }
  cbn [readAll].
  match goal with
  | |- context [ParseUpdateResponse b fromJson ?d ?c ?st] =>
      destruct (ParseUpdateResponse_outcome b fromJson d c st)
        as [-> | [rel_val ->]]
  end.
  - exists []. by rewrite app_nil_r.
  - eexists [_]. split; [done|]. by repeat constructor.
Qed.

(** X11. The slot of a check takes whatever reply is current, also the
    reply of a download in flight. [OnDownloadFinished], run after it,
    finds no reply and only clears the in-progress flag: nothing is
    written or scheduled, and the attempt ends without any signal that
    carries an [UpdateResult]. *)
Theorem check_completion_ends_download (channel : string) (s : State) :
  let s1 := OnCheckFinished b fromJson channel s in
  let s2 := OnDownloadFinished b s1 in
  s2 = set_update_in_progress false s1 /\
  update_in_progress s2 = false /\
  fs s2 = fs s /\
  timers s2 = timers s /\
  exists news, emitted s2 = emitted s ++ news /\
               Forall (fun sig => is_completion sig = false) news.
Proof.
  cbv zeta.
  destruct (OnCheckFinished_shape channel s)
    as (Hnone & _ & Hfs & _ & Htimers).
  assert (Hs2 : OnDownloadFinished b (OnCheckFinished b fromJson channel s) =
                set_update_in_progress false (OnCheckFinished b fromJson channel s)).
  { unfold OnDownloadFinished. rewrite Hnone.
    by destruct (cancel_requested (OnCheckFinished b fromJson channel s)). }
  rewrite Hs2. split_and!; try done. cbn. apply OnCheckFinished_signals.
Qed.

(** *** Backup and restore *)

Lemma backup_file_is_not_the_executable s :
  app_directory s ++ ["citron.exe"] <> backup_path s ++ ["citron.exe.bak"].
Proof. intros H. by apply app_inj_tail in H as [_ H]. Qed.

Lemma CreateBackup_copies s data x :
  fs s !! (app_directory s ++ ["citron.exe"]) = Some (RegularFile data x) ->
  FS.is_directory (fs s) (backup_path s) = true ->
  fs s !! (backup_path s ++ ["citron.exe.bak"]) <> Some Directory ->
  CreateBackup s =
    (true, set_fs (<[backup_path s ++ ["citron.exe.bak"] := RegularFile data x]> (fs s)) s).
Proof.
  intros Hexe Hdir Hbak. rewrite CreateBackup_unfold. unfold FS.copy_file.
  rewrite Hexe.
  rewrite bool_decide_eq_false_2 by apply backup_file_is_not_the_executable.
  unfold FS.parent_path. rewrite removelast_last, Hdir. cbn [negb].
  by destruct (fs s !! (backup_path s ++ ["citron.exe.bak"])) as [[]|].
Qed.

(** When [CreateBackup] succeeds, the installed executable is a regular
    file and the backup is a copy of it. *)
Lemma CreateBackup_success s :
  (CreateBackup s).1 = true ->
  exists data x,
    fs s !! (app_directory s ++ ["citron.exe"]) = Some (RegularFile data x) /\
    FS.is_directory (fs s) (backup_path s) = true /\
    fs s !! (backup_path s ++ ["citron.exe.bak"]) <> Some Directory /\
    (CreateBackup s).2 =
      set_fs (<[backup_path s ++ ["citron.exe.bak"] := RegularFile data x]> (fs s)) s.
Proof.
  rewrite CreateBackup_unfold. unfold FS.copy_file.
  destruct (fs s !! (app_directory s ++ ["citron.exe"])) as [[data x|]|];
    [|done..].
  case_bool_decide; [done|].
  unfold FS.parent_path. rewrite removelast_last.
  destruct (FS.is_directory (fs s) (backup_path s)); [|done]. cbn [negb].
  destruct (fs s !! (backup_path s ++ ["citron.exe.bak"])) as [[]|];
    [|done|]; intros _; by exists data, x.
Qed.

Lemma is_directory_insert (fs0 : gmap (list string) Node) (p q : list string) n :
  p <> q -> FS.is_directory (<[q := n]> fs0) p = FS.is_directory fs0 p.
Proof.
  intros Hne. unfold FS.is_directory. destruct p as [|c p]; [done|].
  by rewrite lookup_insert_ne.
Qed.

(** X12. On Windows, an accepted [DownloadAndInstallUpdate] that finds the
    installed executable and the backup directory first puts a copy of the
    executable into the backup slot, replacing what was there, and then
    starts the download: the in-progress flag is set, an earlier request
    to cancel is forgotten, one request for the given URL is sent and an
    unfinished reply connected to [OnDownloadFinished] is current. Nothing
    else on disk changes and no signal is emitted. *)
Theorem download_starts_after_snapshot
    (download_url : string) (s : State) (data : string) (x : bool) :
  platform b = Windows ->
  update_in_progress s = false ->
  fs s !! (app_directory s ++ ["citron.exe"]) = Some (RegularFile data x) ->
  FS.is_directory (fs s) (backup_path s) = true ->
  fs s !! (backup_path s ++ ["citron.exe.bak"]) <> Some Directory ->
  let s' := DownloadAndInstallUpdate b download_url s in
  fs s' = <[backup_path s ++ ["citron.exe.bak"] := RegularFile data x]> (fs s) /\
  update_in_progress s' = true /\
  cancel_requested s' = false /\
  sent s' = sent s ++ [{| request_url := download_url; user_agent := None |}] /\
  (exists r, current_reply s' = Some r /\ reply_finished r = false /\
             reply_error r = None /\ reply_slot r = DownloadFinished) /\
  emitted s' = emitted s /\
  timers s' = timers s.
Proof.
  intros Hwin Hflag Hexe Hdir Hbak s'. unfold s', DownloadAndInstallUpdate.
  rewrite Hflag, Hwin.
  rewrite (CreateBackup_copies _ data x) by done. cbn.
  split_and!; try done. eexists. by split_and!.
Qed.

(** X13. A backup can be restored: after a successful [CreateBackup]
    in an installation directory, whatever regular file is then written
    over the installed executable, [RestoreBackup] succeeds and puts the
    file system back into the state it had right after the backup, with
    the executable as it was. *)
Theorem backup_then_restore (s : State) (junk : string) (y : bool) :
  (CreateBackup s).1 = true ->
  FS.is_directory (fs s) (app_directory s) = true ->
  let s1 := (CreateBackup s).2 in
  let damaged :=
    set_fs (<[app_directory s ++ ["citron.exe"] := RegularFile junk y]> (fs s1)) s1 in
  (RestoreBackup damaged).1 = true /\
  fs (RestoreBackup damaged).2 = fs s1 /\
  fs (RestoreBackup damaged).2 !! (app_directory s ++ ["citron.exe"])
    = fs s !! (app_directory s ++ ["citron.exe"]).
Proof.
  intros Hok Happ.
  destruct (CreateBackup_success s Hok) as (data & x & Hexe & Hdir & Hbak & ->).
  cbv zeta. cbn [fs set_fs].
  pose proof (backup_file_is_not_the_executable s) as Hne.
  set (exe := app_directory s ++ ["citron.exe"]) in *.
  set (bak := backup_path s ++ ["citron.exe.bak"]) in *.
  assert (Happ_exe : app_directory s <> exe).
  { unfold exe. intros H. apply (f_equal (@List.length string)) in H.
    rewrite length_app in H. cbn in H. lia. }
  assert (Happ_bak : app_directory s <> bak).
  { intros H. apply Hbak. rewrite <- H.
    apply is_directory_lookup; [|done]. rewrite H. unfold bak.
    by destruct (backup_path s). }
  rewrite (RestoreBackup_restores _ data x); cbn [fs set_fs app_directory backup_path fst snd].
  - fold exe bak. rewrite insert_insert_eq.
    assert (Hsame : <[exe := RegularFile data x]> (<[bak := RegularFile data x]> (fs s))
                    = <[bak := RegularFile data x]> (fs s)).
    { apply insert_id. by rewrite lookup_insert_ne. }
    rewrite Hsame. split_and!; [done|done|].
    by rewrite lookup_insert_ne.
  - fold exe bak. rewrite lookup_insert_ne by done. apply lookup_insert_eq.
  - fold exe bak. done.
  - fold exe. by rewrite !is_directory_insert.
  - fold exe. by rewrite lookup_insert_eq.
Qed.

(** X14. [RestoreBackup] writes nothing but the installed executable, and
    does nothing at all - and answers [false] - when there is no backup. *)
Theorem RestoreBackup_touches_only_the_executable (s : State) :
  (forall q, q <> app_directory s ++ ["citron.exe"] ->
             fs (RestoreBackup s).2 !! q = fs s !! q) /\
  (fs s !! (backup_path s ++ ["citron.exe.bak"]) = None ->
   RestoreBackup s = (false, s)) /\
  ((RestoreBackup s).1 = true ->
   exists data x,
     fs s !! (backup_path s ++ ["citron.exe.bak"]) = Some (RegularFile data x) /\
     fs (RestoreBackup s).2 !! (app_directory s ++ ["citron.exe"])
       = Some (RegularFile data x)).
Proof.
  split_and!.
  - intros q Hq. rewrite RestoreBackup_unfold.
    destruct (FS.exists_ _ _); cbn [snd]; [|done].
    unfold FS.copy_file.
    destruct (fs s !! (backup_path s ++ ["citron.exe.bak"])) as [[data x|]|];
      [|done..].
    case_bool_decide; [done|].
    destruct (negb _); [done|].
    destruct (fs s !! (app_directory s ++ ["citron.exe"])) as [[]|];
      cbn [snd fs set_fs]; try done; by rewrite lookup_insert_ne.
  - apply RestoreBackup_missing.
  - rewrite RestoreBackup_unfold.
    destruct (FS.exists_ _ _); cbn [fst snd]; [|done].
    unfold FS.copy_file.
    destruct (fs s !! (backup_path s ++ ["citron.exe.bak"])) as [[data x|]|];
      [|done..].
    case_bool_decide; [done|].
    destruct (negb _); [done|].
    destruct (fs s !! (app_directory s ++ ["citron.exe"])) as [[]|];
      cbn [fst snd fs set_fs]; try done; intros _; exists data, x;
      by rewrite lookup_insert_eq.
Qed.

(** *** Cancelling too late, and platforms without an installer *)

Lemma RestoreBackup_flags s c f :
  RestoreBackup (set_cancel_requested c (set_update_in_progress f s)) =
  ((RestoreBackup s).1,
   set_cancel_requested c (set_update_in_progress f (RestoreBackup s).2)).
Proof.
  rewrite !RestoreBackup_unfold. cbn [fs app_directory backup_path
    set_cancel_requested set_update_in_progress].
  destruct (FS.exists_ _ _); [|done].
  by destruct (FS.copy_file _ _ (fs s)).
Qed.

Lemma InstallUpdate_flags u_p s c f :
  InstallUpdate u_p (set_cancel_requested c (set_update_in_progress f s)) =
  ((InstallUpdate u_p s).1,
   set_cancel_requested c (set_update_in_progress f (InstallUpdate u_p s).2)).
Proof.
  unfold InstallUpdate. cbn [fs app_directory set_cancel_requested
    set_update_in_progress].
  destruct (catch_all _ (fs s)) as [[] fs']; [|done].
  unfold CreateUpdateHelperScript. cbn [fs app_directory set_fs
    set_cancel_requested set_update_in_progress].
  by destruct (FS.write_file _ _ fs').
Qed.

Lemma extract_and_install_flags zip_path s c f :
  extract_and_install ExtractArchive zip_path
    (set_cancel_requested c (set_update_in_progress f s)) =
  set_cancel_requested c (extract_and_install ExtractArchive zip_path s).
Proof.
  unfold extract_and_install.
  cbn [fs temp_download_path set_cancel_requested set_update_in_progress].
  destruct (ExtractArchive _ _ (fs s)) as [[] fs1]; cbn [negb].
  all: cbn [temp_download_path set_fs].
  - change (set_fs fs1 (set_cancel_requested c (set_update_in_progress f s)))
      with (set_cancel_requested c (set_update_in_progress f (set_fs fs1 s))).
    rewrite InstallUpdate_flags.
    destruct (InstallUpdate _ (set_fs fs1 s)) as [[] s1]; cbn [fst snd negb].
    + done.
    + rewrite RestoreBackup_flags. by destruct (RestoreBackup s1).
  - change (set_fs fs1 (set_cancel_requested c (set_update_in_progress f s)))
      with (set_cancel_requested c (set_update_in_progress f (set_fs fs1 s))).
    rewrite RestoreBackup_flags. by destruct (RestoreBackup (set_fs fs1 s)).
Qed.

(** X15. Cancelling after the download has completed comes too late: on
    Windows, between the end of the download and the extraction timer,
    [CancelUpdate] only sets the cancel flag and clears the in-progress
    flag. The timer callback never looks at either, so extraction and
    staging run exactly as they would have without the cancellation, with
    the same effect on disk and the same signal. *)
Theorem cancel_after_download_is_ignored
    (s : State) (r : QNetworkReply) (zip_path : list string)
    (pending : list (list string)) :
  update_in_progress s = true ->
  current_reply s = Some r ->
  reply_finished r = true ->
  timers s = zip_path :: pending ->
  step b fromJson ExtractArchive Timer_fires (CancelUpdate b fromJson s) =
  set_cancel_requested true (step b fromJson ExtractArchive Timer_fires s) /\
  update_in_progress (CancelUpdate b fromJson s) = false /\
  fs (step b fromJson ExtractArchive Timer_fires (CancelUpdate b fromJson s)) =
  fs (step b fromJson ExtractArchive Timer_fires s) /\
  emitted (step b fromJson ExtractArchive Timer_fires (CancelUpdate b fromJson s)) =
  emitted (step b fromJson ExtractArchive Timer_fires s).
Proof.
  intros Hflag Hreply Hfinished Htimers.
  assert (Hcancel : CancelUpdate b fromJson s =
                    set_update_in_progress false (set_cancel_requested true s)).
  { unfold CancelUpdate. rewrite Hflag. cbn [negb current_reply set_cancel_requested].
    rewrite Hreply. unfold abort. by rewrite Hfinished. }
  assert (Hstep :
    step b fromJson ExtractArchive Timer_fires (CancelUpdate b fromJson s) =
    set_cancel_requested true (step b fromJson ExtractArchive Timer_fires s)).
  { rewrite Hcancel. cbn [step timers set_update_in_progress set_cancel_requested].
    rewrite Htimers.
    change (set_timers pending
              (set_update_in_progress false (set_cancel_requested true s)))
      with (set_cancel_requested true
              (set_update_in_progress false (set_timers pending s))).
    by rewrite extract_and_install_flags. }
  rewrite Hstep, Hcancel. by split_and!.
Qed.

(** X16. In a build for a platform that is neither Windows nor Linux a
    download that completes without error is read and dropped: nothing is
    written, nothing is scheduled or reported, and the in-progress flag is
    not cleared, so that with the flag set [DownloadAndInstallUpdate] and
    [CheckForUpdates] stay refused. *)
Theorem download_goes_nowhere_on_other_platforms
    (s : State) (r : QNetworkReply) (download_url override_channel : string) :
  platform b = OtherOS ->
  cancel_requested s = false ->
  current_reply s = Some r ->
  reply_error r = None ->
  let s' := OnDownloadFinished b s in
  update_in_progress s' = update_in_progress s /\
  fs s' = fs s /\
  timers s' = timers s /\
  emitted s' = emitted s /\
  (update_in_progress s = true ->
   DownloadAndInstallUpdate b download_url s' = s' /\
   CheckForUpdates override_channel s' = s').
Proof.
  intros Hother Hcancel Hreply Herror s'.
  assert (Hs' : s' = (readAll r s).2).
  { unfold s', OnDownloadFinished. by rewrite Hcancel, Hreply, Herror, Hother. }
  rewrite Hs'. cbn. split_and!; try done.
  intros Hflag. unfold DownloadAndInstallUpdate, CheckForUpdates. cbn.
  by rewrite Hflag.
Qed.

(** X18. [OnDownloadProgress] reports nothing while the total is unknown
    (zero or negative); otherwise, for a received count between 0 and the
    total, and a total small enough for [r * 100] to fit a [qint64], it
    reports the percentage rounded down, which lies between 0 and 100. *)
Theorem OnDownloadProgress_percentage (r t : Z) (s : State) :
  ((t <= 0)%Z -> OnDownloadProgress r t s = s) /\
  ((0 < t)%Z -> (0 <= r <= t)%Z -> (t * 100 < 2 ^ 63)%Z ->
   emitted (OnDownloadProgress r t s) =
     emitted s ++ [UpdateDownloadProgress (r * 100 / t) r t] /\
   (0 <= r * 100 / t <= 100)%Z).
Proof.
  unfold OnDownloadProgress. split.
  - intros Ht. by rewrite (proj2 (Z.ltb_ge 0 t)).
  - intros Ht Hr Hfit. rewrite (proj2 (Z.ltb_lt 0 t)) by done.
    assert (Hquot : (0 <= r * 100 / t <= 100)%Z).
    { split; [apply Z.div_pos; lia|].
      apply Z.div_le_upper_bound; lia. }
    assert (Hwrap64 : wrap 64 (r * 100) = (r * 100)%Z).
    { unfold wrap. rewrite Z.mod_small; [lia|]. change (2 ^ (64 - 1))%Z with (2 ^ 63)%Z.
      change (2 ^ 64)%Z with (2 ^ 63 + 2 ^ 63)%Z. lia. }
    rewrite Hwrap64, Z.quot_div_nonneg by lia.
    assert (Hwrap32 : wrap 32 (r * 100 / t) = (r * 100 / t)%Z).
    { unfold wrap. rewrite Z.mod_small; [lia|].
      change (2 ^ (32 - 1))%Z with 2147483648%Z.
      change (2 ^ 32)%Z with 4294967296%Z. lia. }
    rewrite Hwrap32. by split.
Qed.

Lemma empty_append a c : Str.empty (a ++ c) = Str.empty a && Str.empty c.
Proof. by destruct a. Qed.

(** *** Directories, cleanup and the launch of the helper *)

Lemma mkdirs_keeps (rest pre : list string) (fs0 fs' : gmap (list string) Node)
    (q : list string) (n : Node) :
  FS.mkdirs pre rest fs0 = Ok fs' -> fs0 !! q = Some n -> fs' !! q = Some n.
Proof.
  revert pre fs0. induction rest as [|c rest IH]; intros pre fs0;
    cbn [FS.mkdirs].
  - by intros [= ->].
  - destruct (fs0 !! (pre ++ [c])) as [[]|] eqn:Hc; [done|by apply IH|].
    intros Hok Hq. eapply IH; [exact Hok|].
    rewrite lookup_insert_ne; [done|]. intros <-. by rewrite Hc in Hq.
Qed.

Lemma create_directories_makes_directory (p : list string)
    (fs0 fs' : gmap (list string) Node) :
  FS.create_directories p fs0 = Ok fs' -> FS.is_directory fs' p = true.
Proof.
  intros Hok. destruct (decide (p = [])) as [->|Hne]; [done|].
  apply is_directory_lookup; [done|].
  pose proof (mkdirs_prefixes p [] fs0 fs' Hok (List.length p)) as H.
  rewrite firstn_all in H. apply H. destruct p; [done|]. cbn. lia.
Qed.

(** X20. [EnsureDirectoryExists] answers whether the path exists when it
    returns, and it never removes or overwrites anything. Its answer is
    [true] for a directory it found or made - and also for a path that
    is a regular file, which it leaves as it is. *)
Theorem EnsureDirectoryExists_answer (p : list string) (s : State) :
  let r := (EnsureDirectoryExists p s).1 in
  let s' := (EnsureDirectoryExists p s).2 in
  r = FS.exists_ (fs s') p /\
  (forall q n, fs s !! q = Some n -> fs s' !! q = Some n) /\
  (r = true ->
   FS.is_directory (fs s') p = true \/ FS.is_regular_file (fs s') p = true) /\
  (FS.is_regular_file (fs s) p = true -> r = true /\ s' = s).
Proof.
  cbv zeta. unfold EnsureDirectoryExists.
  destruct (FS.create_directories p (fs s)) as [fs'|e] eqn:Hcreate;
    cbn [fst snd fs set_fs].
  - pose proof (create_directories_makes_directory _ _ _ Hcreate) as Hdir.
    assert (Hexists : FS.exists_ fs' p = true).
    { unfold FS.exists_, FS.is_directory in *. destruct p; [done|].
      by destruct (fs' !! _) as [[]|]. }
    rewrite Hexists, orb_true_r. split_and!; try done.
    + intros q n. by apply (mkdirs_keeps p []).
    + by left.
    + unfold FS.is_regular_file. intros Hfile.
      destruct (fs s !! p) as [[d x|]|] eqn:Hp; try done.
      pose proof (mkdirs_keeps _ _ _ _ _ _ Hcreate Hp) as Hkept.
      destruct p as [|c p].
      { cbn in Hcreate. injection Hcreate as <-. by rewrite set_fs_same. }
      apply is_directory_lookup in Hdir; [|done]. by rewrite Hdir in Hkept.
  - split_and!; try done.
    + unfold FS.exists_, FS.is_directory, FS.is_regular_file.
      destruct p as [|c p]; [by left|].
      destruct (fs s !! (c :: p)) as [[]|]; [by right|by left|done].
    + unfold FS.is_regular_file, FS.exists_. intros Hfile.
      destruct p; [done|]. by destruct (fs s !! _) as [[]|].
Qed.

Lemma left_behind_above (stays : list string -> bool) (fs0 : gmap (list string) Node)
    (p q : list string) :
  p `prefix_of` q -> FS.left_behind stays fs0 q -> FS.left_behind stays fs0 p.
Proof.
  intros Hpq (q' & n & Hlook & Hq & Hstays). exists q', n.
  split_and!; [done| |done]. by etrans.
Qed.

Lemma remove_all_only_removes (stays : list string -> bool) (p : list string)
    (fs0 : gmap (list string) Node) (q : list string) (n : Node) :
  (FS.remove_all stays p fs0).2 !! q = Some n -> fs0 !! q = Some n.
Proof.
  unfold FS.remove_all. cbn [snd]. intros H.
  by apply map_lookup_filter_Some in H as [H _].
Qed.

Lemma remove_all_frame (stays : list string -> bool) (p : list string)
    (fs0 : gmap (list string) Node) (q : list string) :
  ~ p `prefix_of` q -> (FS.remove_all stays p fs0).2 !! q = fs0 !! q.
Proof.
  intros Hq. unfold FS.remove_all. cbn [snd].
  destruct (fs0 !! q) as [n|] eqn:HA.
  - apply map_lookup_filter_Some. split; [done|]. by left.
  - apply map_lookup_filter_None. by left.
Qed.

(** Whether [remove_all] sets [ec]: it does not exactly when nothing at
    or below [p] is left. *)
Lemma remove_all_ec (stays : list string -> bool) (p : list string) (fs0 : gmap (list string) Node) :
  (FS.remove_all stays p fs0).1 = false <->
  forall q, p `prefix_of` q -> (FS.remove_all stays p fs0).2 !! q = None.
Proof.
  unfold FS.remove_all. cbn [fst snd]. rewrite bool_decide_eq_false. split.
  - intros Hnone q Hq. apply map_lookup_filter_None. right.
    intros n _ [Hout|Hleft]; [done|]. cbn [fst] in Hleft.
    apply Hnone. by apply (left_behind_above _ _ p q).
  - intros Hgone (q' & n & Hlook & Hq & Hstays).
    specialize (Hgone q' Hq). apply map_lookup_filter_None in Hgone
      as [Hgone|Hgone]; [by rewrite Hlook in Hgone|].
    apply (Hgone n Hlook). right. by exists q', n.
Qed.

(** X21. [CleanupFiles] removes nothing outside the download directory
    and adds or changes nothing anywhere. When the download directory
    exists, the answer is [true] exactly when nothing at or below it is
    left, and when the answer is [false] an entry that resisted the
    removal is still there. When there is no download directory the answer
    is [true] and nothing happens. *)
Theorem CleanupFiles_removes_the_download_directory (s : State) :
  let r := (CleanupFiles s).1 in
  let s' := (CleanupFiles s).2 in
  (forall q, ~ temp_download_path s `prefix_of` q -> fs s' !! q = fs s !! q) /\
  (forall q n, fs s' !! q = Some n -> fs s !! q = Some n) /\
  (FS.exists_ (fs s) (temp_download_path s) = true ->
   (r = true <->
    forall q, temp_download_path s `prefix_of` q -> fs s' !! q = None) /\
   (r = false ->
    exists q n, temp_download_path s `prefix_of` q /\
                resists_removal (ambient s) q = true /\
                fs s' !! q = Some n)) /\
  (FS.exists_ (fs s) (temp_download_path s) = false -> r = true /\ s' = s).
Proof.
  cbv zeta. unfold CleanupFiles.
  destruct (FS.exists_ (fs s) (temp_download_path s)); [|by split_and!].
  pose proof (remove_all_ec (resists_removal (ambient s))
                (temp_download_path s) (fs s)) as Hec.
  pose proof (remove_all_frame (resists_removal (ambient s))
                (temp_download_path s) (fs s)) as Hframe.
  pose proof (remove_all_only_removes (resists_removal (ambient s))
                (temp_download_path s) (fs s)) as Hless.
  assert (Hleft :
    (FS.remove_all (resists_removal (ambient s)) (temp_download_path s) (fs s)).1
      = true ->
    exists q n, temp_download_path s `prefix_of` q /\
                resists_removal (ambient s) q = true /\
                (FS.remove_all (resists_removal (ambient s))
                   (temp_download_path s) (fs s)).2 !! q = Some n).
  { unfold FS.remove_all. cbn [fst snd]. rewrite bool_decide_eq_true.
    intros (q' & n & Hlook & Hq & Hstays). exists q', n.
    split_and!; [done|done|]. apply map_lookup_filter_Some.
    split; [done|]. right. by exists q', n. }
  destruct (FS.remove_all _ _ (fs s)) as [ec fs'].
  cbn [fst snd fs set_fs] in *.
  split_and!; [done|done| |done]. intros _. split.
  - rewrite negb_true_iff. exact Hec.
  - rewrite negb_false_iff. exact Hleft.
Qed.

Lemma success_means_staged zip_path s message :
  emitted (extract_and_install ExtractArchive zip_path s)
    = emitted s ++ [UpdateCompleted Success message] ->
  FS.is_regular_file (fs (extract_and_install ExtractArchive zip_path s))
    (app_directory s ++ ["update_staging"; "apply_update.bat"]) = true.
Proof.
  unfold extract_and_install.
  destruct (ExtractArchive _ _ (fs s)) as [[] fs1]; cbn [negb].
  2:{ pose proof (RestoreBackup_only_fs (set_fs fs1 s)) as Honly.
      destruct (RestoreBackup (set_fs fs1 s)) as [restored s1].
      cbn [snd] in Honly. rewrite Honly. cbn. intros H.
      by apply app_inv_head in H. }
  cbn [temp_download_path set_fs].
  pose proof (InstallUpdate_only_fs (temp_download_path s ++ ["extracted"])
                (set_fs fs1 s)) as Hinst.
  pose proof (InstallUpdate_staged (temp_download_path s ++ ["extracted"])
                (set_fs fs1 s)) as Hstaged.
  destruct (InstallUpdate _ (set_fs fs1 s)) as [[] s1];
    cbn [fst snd negb] in Hinst, Hstaged |- *.
  - intros _. by destruct (Hstaged eq_refl) as [Hscript _].
  - pose proof (RestoreBackup_only_fs s1) as Honly.
    destruct (RestoreBackup s1) as [restored s2].
    cbn [snd] in Honly. rewrite Honly, Hinst. cbn. intros H.
    by apply app_inv_head in H.
Qed.

(** X22. Once an attempt has been reported as [Success],
    [LaunchUpdateHelper] finds the script and hands [cmd.exe /C <script>]
    to the process launcher, answering what the launcher answers; while
    there is no script in the staging directory it launches nothing and
    answers [false]. *)
Theorem LaunchUpdateHelper_after_success
    (started : bool) (zip_path : list string) (s : State) (message : string) :
  let s' := extract_and_install ExtractArchive zip_path s in
  let script := app_directory s ++ ["update_staging"; "apply_update.bat"] in
  (emitted s' = emitted s ++ [UpdateCompleted Success message] ->
   LaunchUpdateHelper started s'
   = (started, Some ("cmd.exe", ["/C"; FS.path_string script]))) /\
  (fs s !! script = None -> LaunchUpdateHelper started s = (false, None)).
Proof.
  cbv zeta. split.
  - intros Hsuccess. apply success_means_staged in Hsuccess.
    assert (Happ : app_directory (extract_and_install ExtractArchive zip_path s)
                   = app_directory s).
    { unfold extract_and_install.
      destruct (ExtractArchive _ _ (fs s)) as [[] fs1]; cbn [negb].
      - cbn [temp_download_path set_fs].
        pose proof (InstallUpdate_only_fs (temp_download_path s ++ ["extracted"])
                      (set_fs fs1 s)) as Hinst.
        destruct (InstallUpdate _ (set_fs fs1 s)) as [[] s1];
          cbn [snd negb] in Hinst |- *; [by rewrite Hinst|].
        pose proof (RestoreBackup_only_fs s1) as Honly.
        destruct (RestoreBackup s1) as [restored s2].
        cbn [snd] in Honly. by rewrite Honly, Hinst.
      - pose proof (RestoreBackup_only_fs (set_fs fs1 s)) as Honly.
        destruct (RestoreBackup (set_fs fs1 s)) as [restored s1].
        cbn [snd] in Honly. by rewrite Honly. }
    unfold LaunchUpdateHelper. rewrite Happ.
    unfold FS.is_regular_file in Hsuccess. unfold FS.exists_.
    destruct (app_directory s ++ ["update_staging"; "apply_update.bat"])
      as [|c p] eqn:Hpath; [by destruct (app_directory s)|].
    by destruct (fs _ !! (c :: p)) as [[]|].
  - intros Hnone. unfold LaunchUpdateHelper, FS.exists_. rewrite Hnone.
    by destruct (app_directory s ++ ["update_staging"; "apply_update.bat"])
      eqn:Hpath; [destruct (app_directory s)|].
Qed.

End MoreOrchestration.

(** ** The helper script *)

Lemma wait_loop_polls w n :
  n < 61 ->
  n < wait_loop w n <= 61 /\
  (forall i, n <= i < wait_loop w n - 1 -> citron_running w i = true) /\
  (wait_loop w n < 61 -> citron_running w (wait_loop w n - 1) = false).
Proof.
  funelim (wait_loop w n); intros Hn.
  - split_and!; [lia|lia| |].
    + intros i Hi. lia.
    + intros _. by replace (S wait_count - 1) with wait_count by lia.
  - split_and!; [lia|lia| |lia].
    intros i Hi. by replace i with wait_count by lia.
  - destruct (H ltac:(lia)) as (Hrange & Hrunning & Hlast).
    split_and!; [lia|lia| |done].
    intros i Hi. destruct (decide (i = wait_count)) as [->|]; [done|].
    apply Hrunning. lia.
Qed.

(** X23. The helper waits for citron to close by polling at most 61
    times: it goes on at the first poll that no longer finds
    [citron.exe], and after the 61st poll at the latest even if citron is
    still running. *)
Theorem helper_wait_is_bounded (w : HelperWorld) :
  let n := polls (apply_update_bat w) in
  1 <= n <= 61 /\
  (forall i, i < n - 1 -> citron_running w i = true) /\
  (n < 61 -> citron_running w (n - 1) = false) /\
  ((forall i, i < 61 -> citron_running w i = true) -> n = 61).
Proof.
  cbv zeta.
  assert (Hpolls : polls (apply_update_bat w) = wait_loop w 0) by done.
  rewrite Hpolls.
  destruct (wait_loop_polls w 0 ltac:(lia)) as (Hrange & Hrunning & Hlast).
  split_and!; [lia|lia| |done|].
  - intros i Hi. apply Hrunning. lia.
  - intros Hall. destruct (decide (wait_loop w 0 < 61)) as [Hlt|]; [|lia].
    specialize (Hlast Hlt). rewrite Hall in Hlast; [done|lia].
Qed.

(** ** The paths written into the script *)

Lemma backslashes_length s : String.length (Str.backslashes s) = String.length s.
Proof. induction s as [|c s IH]; cbn; [done|]. by rewrite IH. Qed.

(** X25. The paths that go into the helper script have no forward slash
    left: every ['/'] has become a backslash, every other character is
    kept in its place, and a path without ['/'] is not changed. *)
Theorem backslashes_leaves_no_slash (s : string) :
  no_slash (Str.backslashes s) = true /\
  String.length (Str.backslashes s) = String.length s /\
  (forall n,
      String.get n (Str.backslashes s) =
      match String.get n s with
      | Some c => Some (if Ascii.eqb c "/"%char then "\"%char else c)
      | None => None
      end) /\
  (no_slash s = true -> Str.backslashes s = s).
Proof.
  split_and!.
  - induction s as [|c s IH]; [done|]. cbn. rewrite IH, andb_true_r.
    by destruct (Ascii.eqb c "/"%char) eqn:Hc; [|rewrite Hc].
  - apply backslashes_length.
  - induction s as [|c s IH]; intros n; [done|].
    cbn. destruct n as [|n]; [done|]. apply IH.
  - induction s as [|c s IH]; [done|]. cbn.
    intros [Hc Hs]%andb_true_iff. apply negb_true_iff in Hc.
    by rewrite Hc, IH.
Qed.

(** ** The settings page *)

Section SettingsPage.

Import ConfigureFilesystem.

Lemma back_append_slash s : back (s ++ "/") = Some "/"%char.
Proof.
  induction s as [|c s IH]; [done|]. rewrite append_cons. cbn [back].
  destruct (s ++ "/")%string eqn:Hs; [by destruct s|]. exact IH.
Qed.

Lemma back_nonempty s : s <> EmptyString -> back s <> None.
Proof.
  induction s as [|c s IH]; [done|]. intros _. cbn [back].
  destruct s; [done|]. by apply IH.
Qed.

(** X26. [SetDirectory] leaves the line edit alone when the dialog was
    dismissed; otherwise the text it sets is the chosen path with exactly
    one ['/'] added when the path did not end in one - so the text always
    ends in ['/'], also for the game card, whose path names a file. *)
Theorem SetDirectory_ends_in_slash (str edit_text : string) :
  (str = EmptyString -> SetDirectory str edit_text = edit_text) /\
  (str <> EmptyString ->
   back (SetDirectory str edit_text) = Some "/"%char /\
   (back str = Some "/"%char -> SetDirectory str edit_text = str) /\
   (back str <> Some "/"%char -> SetDirectory str edit_text = (str ++ "/")%string) /\
   SetDirectory (SetDirectory str edit_text) edit_text = SetDirectory str edit_text).
Proof.
  split; [by intros ->|]. intros Hne.
  assert (Hempty : Str.empty str = false) by by destruct str.
  assert (Hcases : (back str = Some "/"%char /\ SetDirectory str edit_text = str) \/
                   (back str <> Some "/"%char /\
                    SetDirectory str edit_text = (str ++ "/")%string)).
  { unfold SetDirectory. rewrite Hempty.
    destruct (back str) as [c|] eqn:Hback; [|by right].
    destruct (Ascii.eqb_spec c "/"%char) as [->|Hc]; [by left|].
    right. split; [congruence|].
    destruct c as [[] [] [] [] [] [] [] []]; try done. }
  destruct Hcases as [[Hslash Hsame]|[Hnot Hadded]].
  - split_and!; try done.
    + by rewrite Hsame.
    + rewrite Hsame. exact Hsame.
  - split_and!; try done.
    + rewrite Hadded. apply back_append_slash.
    + rewrite Hadded. unfold SetDirectory.
      rewrite empty_append, Hempty. cbn [andb].
      by rewrite back_append_slash.
Qed.

Lemma chunks_ceiling (file_size : Z) :
  (0 <= file_size < 2 ^ 63)%Z ->
  ((chunks file_size - 1) * CopyBufferSize < file_size
   <= chunks file_size * CopyBufferSize)%Z.
Proof.
  intros Hsize. unfold chunks, CopyBufferSize.
  rewrite Z.mod_small by (change (2 ^ 64)%Z with (2 ^ 63 + 2 ^ 63)%Z; lia).
  pose proof (Z.div_mod (file_size + 4194304 - 1) 4194304 ltac:(lia)) as Hdm.
  pose proof (Z.mod_pos_bound (file_size + 4194304 - 1) 4194304 ltac:(lia)) as Hm.
  lia.
Qed.

(** X27. For a file size that fits a [qint64], the number of chunks is
    the size divided by the copy buffer size and rounded up: the chunks
    cover the file and one chunk less would not; it is zero only for an
    empty file. *)
Theorem chunks_round_up (file_size : Z) :
  (0 <= file_size < 2 ^ 63)%Z ->
  ((chunks file_size - 1) * CopyBufferSize < file_size
   <= chunks file_size * CopyBufferSize)%Z /\
  (0 <= chunks file_size)%Z /\
  (chunks file_size = 0%Z <-> file_size = 0%Z).
Proof.
  intros Hsize. pose proof (chunks_ceiling file_size Hsize) as Hceil.
  unfold CopyBufferSize in *. split_and!; [lia|lia|lia|lia].
Qed.

Lemma install_loop_appends files t :
  let t' := install_loop files t in
  new_files t' = new_files t ++ names_with is_new (reached files) /\
  overwritten_files t' = overwritten_files t ++ names_with is_overwrite (reached files) /\
  failed_files t' = failed_files t ++ names_with is_failed (reached files) /\
  detected_base_install t' =
    detected_base_install t
    || existsb (fun f => is_base_install (install_result f)) (reached files) /\
  was_cancelled t' = was_cancelled t || existsb cancelled_by_then files.
Proof.
  cbv zeta. revert t. induction files as [|f rest IH]; intros t.
  - cbn. by rewrite !app_nil_r, !orb_false_r.
  - cbn [install_loop reached existsb].
    destruct (cancelled_by_then f); cbn.
    + by rewrite !app_nil_r, !orb_false_r, orb_true_r.
    + destruct (IH (record_result f t)) as (Hn & Ho & Hf & Hb & Hc).
      rewrite Hn, Ho, Hf, Hb, Hc. unfold record_result, names_with.
      cbn [List.filter]. destruct (install_result f); cbn;
        rewrite <- ?app_assoc, ?orb_false_r, ?orb_true_r; done.
Qed.

Lemma names_with_partition files :
  List.length (names_with is_new files)
  + List.length (names_with is_overwrite files)
  + List.length (names_with is_failed files) = List.length files.
Proof.
  unfold names_with. induction files as [|f rest IH]; [done|].
  cbn [List.filter]. destruct (install_result f); cbn; lia.
Qed.

(** The loop as [OnRunAutoloader] starts it, with empty lists. *)
Lemma install_loop_from_empty files (n : Z) :
  let t := install_loop files
             {| new_files := []; overwritten_files := []; failed_files := [];
                detected_base_install := false; was_cancelled := false;
                remaining := n |} in
  new_files t = names_with is_new (reached files) /\
  overwritten_files t = names_with is_overwrite (reached files) /\
  failed_files t = names_with is_failed (reached files) /\
  detected_base_install t =
    existsb (fun f => is_base_install (install_result f)) (reached files) /\
  was_cancelled t = existsb cancelled_by_then files.
Proof.
  cbv zeta.
  destruct (install_loop_appends files
              {| new_files := []; overwritten_files := []; failed_files := [];
                 detected_base_install := false; was_cancelled := false;
                 remaining := n |}) as (Hn & Ho & Hf & Hb & Hc).
  cbn in Hn, Ho, Hf, Hb, Hc. by rewrite Hn, Ho, Hf, Hb, Hc.
Qed.

Lemma reached_all files :
  existsb cancelled_by_then files = false -> reached files = files.
Proof.
  induction files as [|f rest IH]; [done|]. cbn.
  destruct (cancelled_by_then f); cbn; [done|]. intros H. by rewrite IH.
Qed.

(** X28. The installation loop sorts every file it gets to into exactly
    one of the three lists, in the order of the run: a new file, an
    overwritten file, or a failed one - a base game counts as failed and
    sets the base-game flag. The three lists together are as long as the
    run up to the first cancellation, and the loop is marked cancelled
    exactly when some file found the dialog gone or cancelled. *)
Theorem install_loop_sorts_every_file (files : list NspFile) (n : Z) :
  let t := install_loop files
             {| new_files := []; overwritten_files := []; failed_files := [];
                detected_base_install := false; was_cancelled := false;
                remaining := n |} in
  new_files t = names_with is_new (reached files) /\
  overwritten_files t = names_with is_overwrite (reached files) /\
  failed_files t = names_with is_failed (reached files) /\
  detected_base_install t =
    existsb (fun f => is_base_install (install_result f)) (reached files) /\
  was_cancelled t = existsb cancelled_by_then files /\
  List.length (new_files t) + List.length (overwritten_files t)
  + List.length (failed_files t) = List.length (reached files) /\
  (was_cancelled t = false -> reached files = files).
Proof.
  cbv zeta.
  destruct (install_loop_from_empty files n) as (Hn & Ho & Hf & Hb & Hc).
  rewrite Hn, Ho, Hf, Hb, Hc.
  split_and!; try done.
  - apply names_with_partition.
  - apply reached_all.
Qed.

(** X29. Once files have been found, [OnRunAutoloader] never shows the
    message that no new files were installed: a run that is not cancelled
    leaves at least one file in one of the lists, and a cancelled run
    shows no such message. The game list is refreshed exactly when the
    loop is entered, cancelled or not. *)
Theorem no_new_files_message_is_never_shown (files : list NspFile) :
  ~ In NoNewFilesInstalled (OnRunAutoloader files).1 /\
  ((OnRunAutoloader files).2 = true <->
   files <> [] /\ total_chunks (map size files) <> 0%Z).
Proof.
  unfold OnRunAutoloader. destruct files as [|f rest].
  { cbn. split; [by intros [|[]]|]. split; [done|by intros [? _]]. }
  cbn [is_nil]. destruct (total_chunks (map size (f :: rest)) =? 0)%Z eqn:Htotal.
  { cbn [fst snd]. apply Z.eqb_eq in Htotal.
    split; [by intros [|[]]|]. split; [done|by intros [_ ?]]. }
  apply Z.eqb_neq in Htotal. cbn [fst snd]. split; [|done].
  destruct (install_loop_from_empty (f :: rest)
              (wrap 32 (Z.of_nat (List.length (f :: rest)))))
    as (Hn & Ho & Hf & _ & Hc).
  pose proof (names_with_partition (reached (f :: rest))) as Hsum.
  rewrite <- Hn, <- Ho, <- Hf in Hsum.
  set (t := install_loop (f :: rest) _) in *.
  unfold report. intros Hin. apply in_app_or in Hin as [Hin|Hin].
  { destruct (detected_base_install t); [by destruct Hin|done]. }
  destruct (is_nil (new_files t) && is_nil (overwritten_files t)
            && is_nil (failed_files t)) eqn:Hempty; [|by destruct Hin].
  destruct (was_cancelled t) eqn:Hcancelled; [done|].
  rewrite (reached_all (f :: rest)) in Hsum by (by rewrite <- Hc).
  apply andb_true_iff in Hempty as [[H1 H2]%andb_true_iff H3].
  destruct (new_files t), (overwritten_files t), (failed_files t); try done.
Qed.

End SettingsPage.

(** ** What [InstallUpdate] stages *)

Section Staging.

Implicit Types fsA fsB : gmap (list string) Node.
Implicit Types p q e u_p staging rel : list string.

Lemma mkdirs_new (rest pre : list string) fsA fsB q (n : Node) :
  FS.mkdirs pre rest fsA = Ok fsB ->
  fsB !! q = Some n ->
  fsA !! q = Some n \/
  (fsA !! q = None /\ n = Directory /\
   exists k, 0 < k <= List.length rest /\ q = pre ++ take k rest).
Proof.
  revert pre fsA. induction rest as [|c rest IH]; intros pre fsA;
    cbn [FS.mkdirs].
  - intros [= ->] Hq. by left.
  - assert (Hshift : forall k, 0 < k <= List.length rest ->
              (pre ++ [c]) ++ take k rest = pre ++ take (S k) (c :: rest)).
    { intros k _. by rewrite <- app_assoc. }
    destruct (fsA !! (pre ++ [c])) as [[]|] eqn:Hc; [done| |].
    + intros Hok Hq. destruct (IH _ _ Hok Hq) as [H|(Hnone & -> & k & Hk & ->)];
        [by left|].
      right. split_and!; [done|done|]. exists (S k). split; [cbn; lia|].
      by apply Hshift.
    + intros Hok Hq. destruct (IH _ _ Hok Hq) as [H|(Hnone & -> & k & Hk & ->)].
      * destruct (decide (q = pre ++ [c])) as [->|Hne].
        -- rewrite lookup_insert_eq in H. injection H as <-.
           right. split_and!; [done|done|]. exists 1. split; [cbn; lia|].
           cbn. by rewrite take_0.
        -- rewrite lookup_insert_ne in H by done. by left.
      * right. split_and!; [|done|].
        -- destruct (decide ((pre ++ [c]) ++ take k rest = pre ++ [c])) as [He|Hne].
           ++ rewrite He in Hnone. by rewrite lookup_insert_eq in Hnone.
           ++ by rewrite lookup_insert_ne in Hnone.
        -- exists (S k). split; [cbn; lia|]. by apply Hshift.
Qed.

(** [create_directories] changes nothing at a path that is not on the way
    to the directory it makes. *)
Lemma create_directories_frame p fsA fsB q :
  FS.create_directories p fsA = Ok fsB ->
  ~ q `prefix_of` p ->
  fsB !! q = fsA !! q.
Proof.
  intros Hok Hq. destruct (fsB !! q) as [n|] eqn:HB.
  - destruct (mkdirs_new _ _ _ _ _ _ Hok HB) as [H|(_ & _ & k & _ & ->)];
      [done|].
    exfalso. apply Hq. cbn. apply prefix_take.
  - destruct (fsA !! q) as [n|] eqn:HA; [|done].
    by rewrite (mkdirs_keeps _ _ _ _ _ _ Hok HA) in HB.
Qed.

Lemma copy_file_result from to fsA fsB :
  FS.copy_file from to fsA = Ok fsB ->
  exists data x,
    fsA !! from = Some (RegularFile data x) /\
    fsA !! to <> Some Directory /\
    fsB = <[to := RegularFile data x]> fsA.
Proof.
  unfold FS.copy_file. destruct (fsA !! from) as [[data x|]|]; [|done..].
  case_bool_decide; [done|]. destruct (negb _); [done|].
  destruct (fsA !! to) as [[]|]; [|done|]; intros [= <-]; by exists data, x.
Qed.

(** One pass of the loop, taken apart. *)
Lemma copy_entries_step u_p staging entry rest fsA fsB :
  copy_entries u_p staging (entry :: rest) fsA = (Some tt, fsB) ->
  exists fs1 data x,
    FS.create_directories (FS.parent_path (staging ++ FS.relative entry u_p)) fsA
      = Ok fs1 /\
    fs1 !! entry = Some (RegularFile data x) /\
    fs1 !! (staging ++ FS.relative entry u_p) <> Some Directory /\
    copy_entries u_p staging rest
      (<[staging ++ FS.relative entry u_p := RegularFile data x]> fs1)
      = (Some tt, fsB).
Proof.
  cbn [copy_entries]. unfold bind at 1, attempt at 1.
  destruct (FS.create_directories _ fsA) as [fs1|] eqn:H1; [|done].
  unfold bind at 1, attempt at 1.
  destruct (FS.copy_file _ _ fs1) as [fs2|] eqn:H2; [|done].
  apply copy_file_result in H2 as (data & x & Hentry & Hdest & ->).
  intros Hrest. by exists fs1, data, x.
Qed.

(** The loop keeps what is there, except at the places it copies to. *)
Lemma copy_entries_keeps u_p staging entries fsA fsB q (n : Node) :
  copy_entries u_p staging entries fsA = (Some tt, fsB) ->
  fsA !! q = Some n ->
  (forall e, In e entries -> q <> staging ++ FS.relative e u_p) ->
  fsB !! q = Some n.
Proof.
  revert fsA. induction entries as [|entry rest IH]; intros fsA Hloop Hq Hdest.
  - cbn in Hloop. by injection Hloop as <-.
  - apply copy_entries_step in Hloop as (fs1 & data & x & Hmk & _ & _ & Hrest).
    eapply IH; [exact Hrest| |].
    + rewrite lookup_insert_ne by (intros H; by apply (Hdest entry); [left|]).
      by eapply mkdirs_keeps.
    + intros e He. apply Hdest. by right.
Qed.

Lemma under_staging_or_above staging rel q :
  q `prefix_of` staging ++ rel -> staging `prefix_of` q \/ q `prefix_of` staging.
Proof.
  intros Hq. apply (prefix_weak_total staging q (staging ++ rel));
    [by apply prefix_app_r|done].
Qed.

Lemma prefix_is_take q staging :
  q `prefix_of` staging -> q = take (List.length q) staging.
Proof. intros [k ->]. by rewrite take_app_length. Qed.

Lemma parent_path_prefix p : FS.parent_path p `prefix_of` p.
Proof.
  unfold FS.parent_path. rewrite removelast_firstn_len. apply prefix_take.
Qed.

(** Making the directory for a place below the staging directory, whose
    own ancestors are all there, changes nothing outside the staging
    directory. *)
Lemma staging_mkdirs_frame staging rel fsA fsB q :
  FS.create_directories (FS.parent_path (staging ++ rel)) fsA = Ok fsB ->
  (forall k, 0 < k <= List.length staging ->
             fsA !! take k staging = Some Directory) ->
  ~ staging `prefix_of` q ->
  fsB !! q = fsA !! q.
Proof.
  intros Hok Hanc Hq. destruct (fsB !! q) as [n|] eqn:HB.
  - destruct (mkdirs_new _ _ _ _ _ _ Hok HB) as [H|(Hnone & _ & k & Hk & Hqk)];
      [done|].
    exfalso. cbn [app] in Hqk.
    assert (Hpre : q `prefix_of` staging ++ rel).
    { rewrite Hqk. etrans; [apply prefix_take|apply parent_path_prefix]. }
    destruct (under_staging_or_above _ _ _ Hpre) as [H|H]; [done|].
    apply prefix_is_take in H.
    assert (Hlen : 0 < List.length q <= List.length staging).
    { split.
      - rewrite Hqk. destruct (FS.parent_path (staging ++ rel)); [cbn in Hk; lia|].
        destruct k; [lia|]. cbn. lia.
      - rewrite H. rewrite length_take. lia. }
    rewrite H, (Hanc _ Hlen) in Hnone. done.
  - destruct (fsA !! q) as [n|] eqn:HA; [|done].
    by rewrite (mkdirs_keeps _ _ _ _ _ _ Hok HA) in HB.
Qed.

Lemma copy_entries_effect u_p staging entries fsA fsB :
  copy_entries u_p staging entries fsA = (Some tt, fsB) ->
  (forall k, 0 < k <= List.length staging ->
             fsA !! take k staging = Some Directory) ->
  (forall e, In e entries -> ~ staging `prefix_of` e) ->
  (forall q, ~ staging `prefix_of` q -> fsB !! q = fsA !! q) /\
  (forall q data x,
      fsB !! q = Some (RegularFile data x) ->
      fsA !! q = Some (RegularFile data x) \/
      exists e, In e entries /\ q = staging ++ FS.relative e u_p /\
                fsA !! e = Some (RegularFile data x)).
Proof.
  revert fsA. induction entries as [|entry rest IH]; intros fsA Hloop Hanc Hout.
  { cbn in Hloop. injection Hloop as <-. split; [done|]. by left. }
  apply copy_entries_step in Hloop
    as (fs1 & data & x & Hmk & Hentry & Hdest & Hrest).
  set (dest := staging ++ FS.relative entry u_p) in *.
  assert (Hframe1 : forall q, ~ staging `prefix_of` q -> fs1 !! q = fsA !! q).
  { intros q Hq. by eapply staging_mkdirs_frame. }
  assert (Hframe2 : forall q, ~ staging `prefix_of` q ->
            <[dest := RegularFile data x]> fs1 !! q = fsA !! q).
  { intros q Hq. rewrite lookup_insert_ne; [by apply Hframe1|].
    intros <-. apply Hq. by apply prefix_app_r. }
  destruct (IH (<[dest := RegularFile data x]> fs1) Hrest) as [Hunrelated Hfiles].
  { intros k Hk. rewrite lookup_insert_ne.
    - eapply mkdirs_keeps; [exact Hmk|by apply Hanc].
    - intros He. apply Hdest. rewrite He.
      eapply mkdirs_keeps; [exact Hmk|by apply Hanc]. }
  { intros e He. apply Hout. by right. }
  split.
  - intros q Hq. rewrite Hunrelated by done. by apply Hframe2.
  - intros q d y HB. destruct (Hfiles q d y HB) as [H|(e & He & -> & Hfile)].
    + destruct (decide (q = dest)) as [->|Hne].
      * rewrite lookup_insert_eq in H. injection H as <- <-.
        right. exists entry. split_and!; [by left|done|].
        rewrite <- Hframe1; [done|]. apply Hout. by left.
      * rewrite lookup_insert_ne in H by done.
        destruct (mkdirs_new _ _ _ _ _ _ Hmk H) as [HA|(_ & HD & _)];
          [by left|done].
    + right. exists e. split_and!; [by right|done|].
      rewrite <- Hframe2; [done|]. apply Hout. by right.
Qed.

Lemma copy_entries_copies u_p staging entries fsA fsB :
  copy_entries u_p staging entries fsA = (Some tt, fsB) ->
  NoDup (map (fun e => staging ++ FS.relative e u_p) entries) ->
  (forall e, In e entries -> ~ staging `prefix_of` e) ->
  forall e data x,
    In e entries ->
    fsA !! e = Some (RegularFile data x) ->
    fsB !! (staging ++ FS.relative e u_p) = Some (RegularFile data x).
Proof.
  revert fsA. induction entries as [|entry rest IH];
    intros fsA Hloop Hnodup Hout e d y He Hfile; [done|].
  pose proof Hloop as Hwhole.
  apply copy_entries_step in Hloop
    as (fs1 & data & x & Hmk & Hentry & Hdest & Hrest).
  cbn [map] in Hnodup. apply NoDup_cons in Hnodup as [Hfresh Hnodup].
  destruct He as [<-|He].
  - rewrite (mkdirs_keeps _ _ _ _ _ _ Hmk Hfile) in Hentry.
    injection Hentry as <- <-.
    eapply copy_entries_keeps; [exact Hrest|apply lookup_insert_eq|].
    intros e' He' Heq. apply Hfresh. rewrite Heq.
    apply list_elem_of_In.
    by apply (in_map (fun e => staging ++ FS.relative e u_p)).
  - eapply IH; [exact Hrest|done| |done|].
    + intros e' He'. apply Hout. by right.
    + rewrite lookup_insert_ne.
      * by eapply mkdirs_keeps.
      * intros Heq. apply (Hout e); [by right|]. rewrite <- Heq.
        by apply prefix_app_r.
Qed.

(** A successful [InstallUpdate], taken apart. *)
Lemma InstallUpdate_steps u_p s :
  (InstallUpdate u_p s).1 = true ->
  exists fs1 fs3 entries fs4 text x,
    FS.create_directories (app_directory s ++ ["update_staging"]) (fs s) = Ok fs1 /\
    FS.create_directories (app_directory s ++ ["update_staging"])
      (FS.remove_all (resists_removal (ambient s))
         (app_directory s ++ ["update_staging"]) fs1).2 = Ok fs3 /\
    FS.regular_files_under u_p fs3 = Ok entries /\
    copy_entries u_p (app_directory s ++ ["update_staging"]) entries fs3
      = (Some tt, fs4) /\
    fs (InstallUpdate u_p s).2 =
      <[(app_directory s ++ ["update_staging"]) ++ ["apply_update.bat"]
        := RegularFile text x]> fs4.
Proof.
  intros Hok. destruct (InstallUpdate u_p s) as [ok s'] eqn:Hrun.
  cbn [fst] in Hok. subst ok. cbn [snd]. revert Hrun.
  unfold InstallUpdate, catch_all.
  unfold bind at 1, attempt at 1.
  destruct (FS.create_directories _ (fs s)) as [fs1|] eqn:H1; [|done].
  unfold bind at 1, ret at 1.
  unfold bind at 1, attempt at 1.
  destruct (FS.create_directories _ (FS.remove_all _ _ fs1).2) as [fs3|] eqn:H3;
    [|done].
  unfold bind at 1.
  destruct (FS.regular_files_under u_p fs3) as [entries|] eqn:He; [|done].
  unfold bind at 1.
  destruct (copy_entries _ _ entries fs3) as [[[]|] fs4] eqn:Hc; [|done].
  unfold ret. unfold CreateUpdateHelperScript. cbn [fs set_fs app_directory].
  destruct (FS.write_file _ _ fs4) as [fs5|] eqn:Hw; [|done].
  intros [= <-]. cbn [snd fs set_fs].
  unfold FS.write_file in Hw. destruct (negb _); [done|].
  destruct (_ ++ ["apply_update.bat"]) as [|c l] eqn:Hp; [done|].
  destruct (fs4 !! (c :: l)) as [[data x|]|]; [|done|]; injection Hw as <-;
    eauto 12.
Qed.

(** The files [regular_files_under] lists. *)
Lemma regular_files_under_spec dir fsA entries :
  FS.regular_files_under dir fsA = Ok entries ->
  NoDup entries /\
  forall e, In e entries <->
            dir `prefix_of` e /\ exists n, fsA !! e = Some n /\ n <> Directory.
Proof.
  unfold FS.regular_files_under. destruct (FS.is_directory fsA dir); [|done].
  intros [= <-]. split; [apply NoDup_fst_map_to_list|].
  intros e. rewrite <- list_elem_of_In.
  change (map fst ?l) with (l.*1). rewrite list_elem_of_fmap. split.
  - intros ([e' n] & -> & Hin). apply elem_of_map_to_list in Hin.
    apply map_lookup_filter_Some in Hin as [Hin [Hpre Hn]]. eauto.
  - intros (Hpre & n & Hin & Hn). exists (e, n). split; [done|].
    apply elem_of_map_to_list. by apply map_lookup_filter_Some.
Qed.

Lemma relative_app u_p rel : FS.relative (u_p ++ rel) u_p = rel.
Proof. unfold FS.relative. by rewrite drop_app_length. Qed.

(** After the staging directory has been emptied and made again, it holds
    itself and what the removal has left. *)
Lemma staging_after_removal (stays : list string -> bool) staging fsA fsB q
    (n : Node) :
  FS.create_directories staging (FS.remove_all stays staging fsA).2 = Ok fsB ->
  staging `prefix_of` q ->
  fsB !! q = Some n ->
  (q = staging /\ n = Directory) \/
  (fsA !! q = Some n /\ FS.left_behind stays fsA q).
Proof.
  intros Hok Hq HB.
  destruct (mkdirs_new _ _ _ _ _ _ Hok HB) as [H|(_ & -> & k & Hk & ->)].
  - right. unfold FS.remove_all in H. cbn [snd] in H.
    apply map_lookup_filter_Some in H as [H [Hout|Hleft]]; [done|done].
  - left. split; [|done]. cbn [app] in *. apply prefix_length in Hq.
    rewrite length_take in Hq. apply take_ge. lia.
Qed.

(** What is left below the staging directory after [create_directories]
    was there before it. *)
Lemma left_behind_before staging rel fsA fsB (stays : list string -> bool) :
  FS.create_directories staging fsA = Ok fsB ->
  rel <> [] ->
  FS.left_behind stays fsB (staging ++ rel) ->
  FS.left_behind stays fsA (staging ++ rel).
Proof.
  intros Hok Hrel (q' & n & Hlook & Hq & Hstays).
  destruct (mkdirs_new _ _ _ _ _ _ Hok Hlook) as [H|(_ & _ & k & Hk & ->)].
  - by exists q', n.
  - exfalso. cbn [app] in Hq. apply prefix_length in Hq.
    rewrite length_take, length_app in Hq.
    destruct rel; [done|]. cbn [List.length] in Hq. lia.
Qed.

(** X30. What a successful [InstallUpdate] leaves behind, when the
    payload directory [u_p] and the staging directory
    [app_directory / "update_staging"] do not contain one another. Every
    regular file of the payload is in the staging directory, at the same
    relative place and with the same content (the name [apply_update.bat],
    which the helper script takes, apart). A regular file in the staging
    directory is either such a copy or a file that was there before and
    that the removal at the start has left - [InstallUpdate] does not
    look at the [ec] of [remove_all] and still returns [true]. So when
    nothing below the staging directory resists removal, the regular
    files there are exactly those of the payload. And nothing is changed
    at any place that is neither below the staging directory nor one of
    its ancestors. *)
Theorem InstallUpdate_mirrors_the_payload u_p s :
  let staging := app_directory s ++ ["update_staging"] in
  let after := fs (InstallUpdate u_p s).2 in
  (InstallUpdate u_p s).1 = true ->
  ~ staging `prefix_of` u_p ->
  ~ u_p `prefix_of` staging ->
  (forall rel data x,
      rel <> ["apply_update.bat"] ->
      fs s !! (u_p ++ rel) = Some (RegularFile data x) ->
      after !! (staging ++ rel) = Some (RegularFile data x)) /\
  (forall rel data x,
      rel <> ["apply_update.bat"] ->
      after !! (staging ++ rel) = Some (RegularFile data x) ->
      fs s !! (u_p ++ rel) = Some (RegularFile data x) \/
      (fs s !! (staging ++ rel) = Some (RegularFile data x) /\
       FS.left_behind (resists_removal (ambient s)) (fs s) (staging ++ rel))) /\
  ((forall q, staging `prefix_of` q -> resists_removal (ambient s) q = false) ->
   forall rel data x,
     rel <> ["apply_update.bat"] ->
     after !! (staging ++ rel) = Some (RegularFile data x) ->
     fs s !! (u_p ++ rel) = Some (RegularFile data x)) /\
  (forall q,
      ~ staging `prefix_of` q ->
      ~ q `prefix_of` staging ->
      after !! q = fs s !! q).
Proof.
  intros staging after Hok Hs1 Hs2. unfold after.
  destruct (InstallUpdate_steps _ _ Hok)
    as (fs1 & fs3 & entries & fs4 & text & x0 & H1 & H3 & He & Hc & ->).
  fold staging in H1, H3, Hc |- *.
  assert (Hframe : forall q, ~ staging `prefix_of` q -> ~ q `prefix_of` staging ->
            fs3 !! q = fs s !! q).
  { intros q Hq1 Hq2.
    rewrite (create_directories_frame _ _ _ _ H3) by done.
    rewrite remove_all_frame by done.
    by apply (create_directories_frame _ _ _ _ H1). }
  assert (Hunder : forall e, u_p `prefix_of` e ->
            ~ staging `prefix_of` e /\ ~ e `prefix_of` staging).
  { intros e Hpre. split; intros H.
    - by destruct (prefix_weak_total u_p staging e Hpre H).
    - apply Hs2. by etrans. }
  destruct (regular_files_under_spec _ _ _ He) as [Hnodup Hin].
  assert (Hanc : forall k, 0 < k <= List.length staging ->
            fs3 !! take k staging = Some Directory).
  { intros k Hk. by apply (mkdirs_prefixes _ [] _ _ H3). }
  assert (Hout : forall e, In e entries -> ~ staging `prefix_of` e).
  { intros e Hein. apply Hin in Hein as [Hpre _]. by apply Hunder. }
  destruct (copy_entries_effect _ _ _ _ _ Hc Hanc Hout) as [Hunrelated Hfiles].
  assert (Hback : forall rel data x,
    rel <> ["apply_update.bat"] ->
    <[staging ++ ["apply_update.bat"] := RegularFile text x0]> fs4
      !! (staging ++ rel) = Some (RegularFile data x) ->
    fs s !! (u_p ++ rel) = Some (RegularFile data x) \/
    (fs s !! (staging ++ rel) = Some (RegularFile data x) /\
     FS.left_behind (resists_removal (ambient s)) (fs s) (staging ++ rel))).
  { intros rel data x Hrel. rewrite lookup_insert_ne
      by (intros Heq; by apply app_inv_head in Heq).
    intros HB. destruct (Hfiles _ _ _ HB) as [H|(e & Hein & Heq & Hfile)].
    - right.
      destruct (staging_after_removal _ _ _ _ _ _ H3
                  (prefix_app_r staging staging rel (reflexivity _)) H)
        as [[_ Hdir]|[Hstale Hleft]]; [done|].
      assert (Hrel' : rel <> []).
      { intros ->. rewrite app_nil_r in Hstale.
        pose proof (mkdirs_prefixes _ [] _ _ H1 (List.length staging)) as Hdir.
        rewrite take_ge in Hdir by lia. cbn [app] in Hdir.
        rewrite Hdir in Hstale; [done|]. unfold staging.
        rewrite length_app. cbn. lia. }
      split.
      + destruct (mkdirs_new _ _ _ _ _ _ H1 Hstale) as [?|(_ & ? & _)]; done.
      + by apply (left_behind_before _ _ _ _ _ H1).
    - left. apply app_inv_head in Heq. apply Hin in Hein as [[r ->] _].
      rewrite relative_app in Heq. subst r.
      destruct (Hunder (u_p ++ rel)) as [Ha Hb]; [by apply prefix_app_r|].
      by rewrite Hframe in Hfile. }
  split_and!.
  - intros rel data x Hrel HA. rewrite lookup_insert_ne
      by (intros Heq; by apply app_inv_head in Heq).
    destruct (Hunder (u_p ++ rel)) as [Ha Hb]; [by apply prefix_app_r|].
    rewrite <- Hframe in HA by done.
    assert (Hein : In (u_p ++ rel) entries).
    { apply Hin. split; [by apply prefix_app_r|]. by eexists. }
    rewrite <- (relative_app u_p rel) at 1.
    eapply copy_entries_copies; [exact Hc| |exact Hout|exact Hein|exact HA].
    change (map ?f ?l) with (f <$> l).
    apply NoDup_fmap_2_strong; [|done].
    intros e1 e2 He1 He2 Heq. apply app_inv_head in Heq.
    apply list_elem_of_In, Hin in He1 as [[r1 ->] _].
    apply list_elem_of_In, Hin in He2 as [[r2 ->] _].
    rewrite !relative_app in Heq. by subst.
  - exact Hback.
  - intros Hfree rel data x Hrel HB.
    destruct (Hback rel data x Hrel HB)
      as [H|[_ (q' & n & _ & Hq & Hstays)]]; [done|].
    rewrite Hfree in Hstays; [done|]. etrans; [|exact Hq].
    by apply prefix_app_r.
  - intros q Hq1 Hq2. rewrite lookup_insert_ne.
    + rewrite Hunrelated by done. by apply Hframe.
    + intros <-. apply Hq1. by apply prefix_app_r.
Qed.

End Staging.

(** * The further properties on sample inputs *)

Lemma no_release_on_other_platforms_witness :
  select_assets Sample2.other_build [asset "citron.AppImage"; asset "citron-v3.zip"]
  = [] /\
  ParseUpdateResponse Sample2.other_build (decodes_to (DocArray [titled]))
    "feed" "Nightly" (idle installed) = idle installed.
Proof.
  apply (no_release_on_other_platforms Sample2.other_build
           (decodes_to (DocArray [titled])) "feed" "Nightly" (idle installed)
           [asset "citron.AppImage"; asset "citron-v3.zip"]).
  reflexivity.
Defined.

Lemma ParseUpdateResponse_channel_case_witness :
  ParseUpdateResponse linux_build (decodes_to (DocArray [titled]))
    "feed" "Nightly" (idle installed)
  = ParseUpdateResponse linux_build (decodes_to (DocArray [titled]))
      "feed" "NIGHTLY" (idle installed).
Proof.
  apply (ParseUpdateResponse_channel_case linux_build
           (decodes_to (DocArray [titled])) "feed" "Nightly" "NIGHTLY"
           (idle installed)).
  reflexivity.
Defined.

Lemma nightly_version_is_a_commit_hash_witness :
  let s' := ParseUpdateResponse linux_build (decodes_to (DocArray [titled]))
              "feed" "Nightly" (idle installed) in
  emitted s' = [UpdateCheckCompleted true (current_update_info s')] /\
  version (current_update_info s') = "0f9e8d7" /\
  all_hex (version (current_update_info s')) = true /\
  7 <= String.length (version (current_update_info s')) <= 40.
Proof.
  cbv zeta. split; [reflexivity|]. split; [reflexivity|].
  apply (nightly_version_is_a_commit_hash linux_build
           (decodes_to (DocArray [titled])) "feed" "Nightly" (idle installed) true).
  - intros H. vm_compute in H. discriminate H.
  - left. reflexivity.
  - intros [].
Defined.

Lemma check_is_not_cancellable_witness :
  let s1 := CheckForUpdates "Nightly" (idle installed) in
  sent s1 = [{| request_url := NIGHTLY_UPDATE_URL;
                user_agent := Some "Citron-Updater/1.0" |}] /\
  update_in_progress s1 = false /\
  CancelUpdate linux_build (decodes_to DocNull) s1 = s1.
Proof.
  cbv zeta.
  pose proof (check_is_not_cancellable linux_build (decodes_to DocNull)
                "Nightly" (idle installed) eq_refl) as H.
  cbv zeta in H. destruct H as (Hsent & _ & Hflag & _ & _ & Hcancel).
  split_and!; [exact Hsent|exact Hflag|exact Hcancel].
Defined.

Lemma download_starts_after_snapshot_witness :
  let s' := DownloadAndInstallUpdate windows_build "https://dl.example/citron.zip"
              (idle installed) in
  fs s' !! ["C:"; "citron"; "backup"; "citron.exe.bak"]
    = Some (RegularFile "current build" true) /\
  update_in_progress s' = true /\
  sent s' = [{| request_url := "https://dl.example/citron.zip";
                user_agent := None |}].
Proof.
  cbv zeta.
  assert (Hfree : fs (idle installed)
                    !! (backup_path (idle installed) ++ ["citron.exe.bak"])
                  <> Some Directory) by (vm_compute; discriminate).
  pose proof (download_starts_after_snapshot windows_build
                "https://dl.example/citron.zip" (idle installed)
                "current build" true eq_refl eq_refl eq_refl eq_refl Hfree) as H.
  cbv zeta in H. destruct H as (Hfs & Hflag & _ & Hsent & _).
  split_and!; [by rewrite Hfs|exact Hflag|exact Hsent].
Defined.

Lemma backup_then_restore_witness :
  let s1 := (CreateBackup (idle installed)).2 in
  let damaged :=
    set_fs (<[ ["C:"; "citron"; "citron.exe"] := RegularFile "half written" false ]>
              (fs s1)) s1 in
  (RestoreBackup damaged).1 = true /\
  fs (RestoreBackup damaged).2 !! ["C:"; "citron"; "citron.exe"]
    = Some (RegularFile "current build" true).
Proof.
  cbv zeta.
  pose proof (backup_then_restore (idle installed) "half written" false
                eq_refl eq_refl) as H.
  cbv zeta in H. destruct H as (Hok & _ & Hexe).
  split; [exact Hok|]. etrans; [exact Hexe|reflexivity].
Defined.

Lemma cancel_after_download_is_ignored_witness :
  let s := Sample2.windows_downloaded in
  let cancelled := CancelUpdate windows_build (decodes_to DocNull) s in
  let timer := step windows_build (decodes_to DocNull) unpacking_extractor
                 Timer_fires in
  update_in_progress s = true /\
  update_in_progress cancelled = false /\
  cancel_requested cancelled = true /\
  fs (timer cancelled) = fs (timer s) /\
  emitted (timer cancelled) = emitted (timer s) /\
  emitted (timer cancelled) =
    [UpdateCompleted Success "Update staged successfully."].
Proof.
  cbv zeta.
  pose proof (cancel_after_download_is_ignored windows_build (decodes_to DocNull)
                unpacking_extractor Sample2.windows_downloaded
                (download_reply true None EmptyString)
                ["C:"; "Temp"; "citron_updater"; "citron_update.zip"] []
                eq_refl eq_refl eq_refl eq_refl) as (_ & Hflag & Hfs & Hemitted).
  split_and!; [reflexivity|exact Hflag|reflexivity|exact Hfs|exact Hemitted|].
  reflexivity.
Defined.

Lemma download_goes_nowhere_on_other_platforms_witness :
  let s := downloading (download_reply true None "archive") in
  let s' := OnDownloadFinished Sample2.other_build s in
  update_in_progress s' = true /\
  emitted s' = [] /\
  DownloadAndInstallUpdate Sample2.other_build "https://dl.example/citron.zip" s' = s' /\
  CheckForUpdates "Nightly" s' = s'.
Proof.
  cbv zeta.
  pose proof (download_goes_nowhere_on_other_platforms Sample2.other_build
                (downloading (download_reply true None "archive"))
                (download_reply true None "archive")
                "https://dl.example/citron.zip" "Nightly"
                eq_refl eq_refl eq_refl eq_refl) as H.
  cbv zeta in H. destruct H as (Hflag & _ & _ & Hemitted & Hrefused).
  destruct (Hrefused eq_refl) as [Hdownload Hcheck].
  split_and!; [exact Hflag|exact Hemitted|exact Hdownload|exact Hcheck].
Defined.

(** The download directory with the archive in it: [CleanupFiles] removes
    both and answers [true]; when the operating system holds on to the
    archive, it answers [false] and both are still there. *)
Lemma CleanupFiles_removes_the_download_directory_witness :
  let zip_path := ["C:"; "Temp"; "citron_updater"; "citron_update.zip"] in
  let free := idle Sample2.downloaded in
  let held := Sample2.idle_in Sample2.archive_in_use Sample2.downloaded in
  ((CleanupFiles free).1 = true /\
   fs (CleanupFiles free).2 !! zip_path = None /\
   fs (CleanupFiles free).2 !! ["C:"; "Temp"; "citron_updater"] = None /\
   fs (CleanupFiles free).2 !! ["C:"; "Temp"] = Some Directory) /\
  ((CleanupFiles held).1 = false /\
   fs (CleanupFiles held).2 !! zip_path = Some (RegularFile "archive" false) /\
   fs (CleanupFiles held).2 !! ["C:"; "Temp"; "citron_updater"] = Some Directory).
Proof.
  cbv zeta.
  destruct (CleanupFiles_removes_the_download_directory (idle Sample2.downloaded))
    as (Hout & _ & Hthere & _).
  destruct (Hthere eq_refl) as [Hiff _]. cbv zeta in Hout, Hiff.
  split.
  - split; [reflexivity|]. split_and!.
    + apply (proj1 Hiff eq_refl). by exists ["citron_update.zip"].
    + apply (proj1 Hiff eq_refl). by exists [].
    + rewrite Hout; [reflexivity|]. intros [k Hk]. discriminate Hk.
  - split_and!; reflexivity.
Defined.

Lemma chunks_round_up_witness :
  (ConfigureFilesystem.chunks 4194305 = 2)%Z /\
  ((ConfigureFilesystem.chunks 4194305 - 1) * ConfigureFilesystem.CopyBufferSize
   < 4194305
   <= ConfigureFilesystem.chunks 4194305 * ConfigureFilesystem.CopyBufferSize)%Z.
Proof.
  split; [reflexivity|].
  apply (chunks_round_up 4194305). lia.
Defined.

(** A staging directory that holds [stale.dll] from an earlier attempt:
    when the file can be removed, it is gone after [InstallUpdate]; when
    the operating system holds on to it, [InstallUpdate] returns [true]
    all the same and the file is still there, beside the new payload. *)
Lemma InstallUpdate_mirrors_the_payload_witness :
  let u_p := ["C:"; "Temp"; "citron_updater"; "extracted"] in
  let s := idle Sample2.unpacked in
  let held := Sample2.idle_in Sample2.stale_in_use Sample2.unpacked in
  fs s !! (staging_directory ++ ["stale.dll"]) = Some (RegularFile "stale" false) /\
  (fs (InstallUpdate u_p s).2 !! (staging_directory ++ ["stale.dll"]) = None /\
   fs (InstallUpdate u_p s).2 !! (staging_directory ++ ["citron.exe"])
     = Some (RegularFile "new build" false) /\
   fs (InstallUpdate u_p s).2 !! ["C:"; "citron"; "citron.exe"]
     = Some (RegularFile "current build" true)) /\
  ((InstallUpdate u_p held).1 = true /\
   fs (InstallUpdate u_p held).2 !! (staging_directory ++ ["stale.dll"])
     = Some (RegularFile "stale" false) /\
   fs (InstallUpdate u_p held).2 !! (staging_directory ++ ["citron.exe"])
     = Some (RegularFile "new build" false)).
Proof.
  cbv zeta.
  assert (H1 : ~ (app_directory (idle Sample2.unpacked) ++ ["update_staging"])
                 `prefix_of` ["C:"; "Temp"; "citron_updater"; "extracted"])
    by (intros [k Hk]; discriminate Hk).
  assert (H2 : ~ ["C:"; "Temp"; "citron_updater"; "extracted"]
                 `prefix_of` (app_directory (idle Sample2.unpacked)
                              ++ ["update_staging"]))
    by (intros [k Hk]; discriminate Hk).
  pose proof (InstallUpdate_mirrors_the_payload
                ["C:"; "Temp"; "citron_updater"; "extracted"]
                (idle Sample2.unpacked) eq_refl H1 H2)
    as (Hcopied & _ & Hexact & Hrest).
  pose proof (InstallUpdate_mirrors_the_payload
                ["C:"; "Temp"; "citron_updater"; "extracted"]
                (Sample2.idle_in Sample2.stale_in_use Sample2.unpacked)
                eq_refl H1 H2)
    as (Hcopied' & _ & _ & _).
  split_and!.
  - reflexivity.
  - destruct (fs (InstallUpdate _ (idle Sample2.unpacked)).2
                !! (staging_directory ++ ["stale.dll"]))
      as [[data x|]|] eqn:Hstale; [| |done].
    + apply (Hexact (fun _ _ => eq_refl) ["stale.dll"]) in Hstale; [|discriminate].
      vm_compute in Hstale. discriminate Hstale.
    + vm_compute in Hstale. discriminate Hstale.
  - apply (Hcopied ["citron.exe"]); [discriminate|reflexivity].
  - rewrite Hrest; [reflexivity| |]; intros [k Hk]; discriminate Hk.
  - reflexivity.
  - reflexivity.
  - apply (Hcopied' ["citron.exe"]); [discriminate|reflexivity].
Defined.
